(** * DA Admin MCP server: retrying executor, asset upload workflow, request helpers

    A shallow embedding of [src/operations/source.js] (retryWithBackoff,
    createSource, uploadAsset) and of [src/common/utils.js]
    (parseResponseBody, daAdminRequest, formatURL), with the properties the
    specification states about them.

    Conventions of the embedding.
    - JavaScript strings are [string]s; every character stands for one code
      unit below 256.
    - JavaScript numbers (retry counts, delays in milliseconds, HTTP status
      codes) are integers, in [Z]. The program's arithmetic on them is that
      of doubles, exact up to [MAX_SAFE_INTEGER]; the statements on the size
      of the computed delays assume that range ([inSafeRange]).
    - A thrown value is an [Error] with its [name] and [message], or one of
      the values [error.message.includes] fails on ([NonError]); values
      whose [message] is neither a string nor undefined are left out.
    - An [async] function is a computation in the monad [M]: it threads the
      state of the outside world (remote services, file system), may throw,
      and emits the ordered trace of the effects it performed (invocations
      of the retried operation, fetches, timers, console lines). *)

From Stdlib Require Import ZArith List String Ascii Bool Lia DecimalString.
From Equations Require Import Equations.
Import ListNotations.

Local Open Scope string_scope.
Local Open Scope Z_scope.

Set Implicit Arguments.

(* ===================================================================== *)
(** ** String primitives of the JavaScript runtime *)
(* ===================================================================== *)

(** [s.startsWith(p)] *)
Fixpoint startsWith (s p : string) {struct p} : bool :=
  match p, s with
  | EmptyString, _ => true
  | String _ _, EmptyString => false
  | String a p', String b s' => Ascii.eqb a b && startsWith s' p'
  end.

(** [s.includes(sub)]: [sub] starts at some position of [s]. *)
Fixpoint includes (s sub : string) : bool :=
  startsWith s sub ||
  match s with
  | EmptyString => false
  | String _ s' => includes s' sub
  end.

(** [s.endsWith(suf)]: [suf] is [s] itself or ends the tail of [s]. *)
Fixpoint endsWith (s suf : string) : bool :=
  String.eqb s suf ||
  match s with
  | EmptyString => false
  | String _ s' => endsWith s' suf
  end.

(** [s.split(sep)] for a one-character separator; never the empty array. *)
Fixpoint split (sep : ascii) (s : string) : list string :=
  match s with
  | EmptyString => [EmptyString]
  | String c s' =>
      if Ascii.eqb c sep then EmptyString :: split sep s'
      else match split sep s' with
           | [] => [String c EmptyString]
           | h :: t => String c h :: t
           end
  end.

(** [s.slice(1)] *)
Definition slice1 (s : string) : string :=
  match s with
  | EmptyString => EmptyString
  | String _ rest => rest
  end.

(** [arr.pop()] on the array [split] returns (it has at least one element,
    so the [undefined] of an empty array never shows). *)
Definition pop (arr : list string) : string := last arr EmptyString.

(** [c.toLowerCase()] on one code unit below 256: A-Z, and the Latin-1
    capitals U+00C0..U+00DE except the multiplication sign U+00D7. *)
Definition lowerChar (c : ascii) : ascii :=
  let n := nat_of_ascii c in
  if ((65 <=? n) && (n <=? 90))%nat then ascii_of_nat (n + 32)
  else if ((192 <=? n) && (n <=? 222) && negb (n =? 215))%nat
       then ascii_of_nat (n + 32)
  else c.

Fixpoint toLowerCase (s : string) : string :=
  match s with
  | EmptyString => EmptyString
  | String c s' => String (lowerChar c) (toLowerCase s')
  end.

(** Template-literal rendering of an integer: [`${n}`]. *)
Definition numberToString (n : Z) : string :=
  NilZero.string_of_int (Z.to_int n).

Definition newline : string := String (ascii_of_nat 10) EmptyString.

(* ===================================================================== *)
(** ** Values, errors and HTTP data *)
(* ===================================================================== *)

(** An [Error] object; only [name] and [message] are ever read. *)
Record JsError : Type := mkError { name : string; message : string }.

(** [new Error(msg)] *)
Definition newError (msg : string) : JsError := mkError "Error" msg.

(** A thrown value that is no [Error]: [undefined] ([throw lastError] before
    any error was stored), [null], or a value whose [message] is undefined
    (a string, a number, a boolean, an object without [message]); the last
    kind carries its [name] property, if it has one. *)
Inductive NonError : Type :=
| Undefined
| Null
| NoMessage (nameProperty : option string).

(** What a [catch] clause can receive: an object with a string [message],
    or a value without one. *)
Inductive Thrown : Type :=
| ThrownValue (v : NonError)
| ThrownError (e : JsError).

Abbreviation ThrownUndefined := (ThrownValue Undefined).

(** The TypeError of [error.message.includes(...)] when [error] is no Error:
    [undefined] and [null] have no properties, and the [message] of the
    other values is [undefined], which has no [includes]. *)
Definition messageTypeError (v : NonError) : JsError :=
  mkError "TypeError"
    match v with
    | Undefined => "Cannot read properties of undefined (reading 'message')"
    | Null => "Cannot read properties of null (reading 'message')"
    | NoMessage _ => "Cannot read properties of undefined (reading 'includes')"
    end.

(** The TypeError of the catch clause of uploadAsset when [error] is no
    Error: it reads [error.name] first. *)
Definition catchTypeError (v : NonError) : JsError :=
  mkError "TypeError"
    match v with
    | Undefined => "Cannot read properties of undefined (reading 'name')"
    | Null => "Cannot read properties of null (reading 'name')"
    | NoMessage _ => "Cannot read properties of undefined (reading 'includes')"
    end.

(** The values a property read or an optional argument can produce here. *)
Inductive JsValue : Type :=
| JsUndefined
| JsString (s : string)
| JsBuiltin (key : string).   (* the member [key] of [Object.prototype] *)

Definition truthy (v : JsValue) : bool :=
  match v with
  | JsUndefined => false
  | JsString s => negb (String.eqb s EmptyString)
  | JsBuiltin _ => true
  end.

(** JSON values, as [response.json()] produces them. *)
#[warnings="-register-all"]
Inductive Json : Type :=
| JNull
| JBool (b : bool)
| JNumber (n : Z)
| JText (s : string)
| JArray (items : list Json)
| JObject (fields : list (string * Json)).

Record Blob : Type := mkBlob { blobData : string; blobType : JsValue }.

(** One [FormData] entry: field name, blob, optional file name. *)
Record FormEntry : Type :=
  mkEntry { entryName : string; entryBlob : Blob; entryFilename : option string }.

Record Request : Type := mkRequest {
  reqUrl : string;
  reqMethod : string;
  reqHeaders : list (string * string);
  reqBody : option (list FormEntry)
}.

Record Response : Type := mkResponse {
  ok : bool;
  status : Z;
  contentTypeHeader : option string;   (* headers.get("content-type") *)
  text : JsError + string              (* what response.text() settles to:
                                          the body, or the error of a body
                                          that cannot be read *)
}.

(** The lines written with [console.error], one constructor per call site. *)
Inductive LogLine : Type :=
| LogAttemptFailed (attemptNumber : Z) (msg : string) (delay : Z)
| LogUploadingAsset (path : string)
| LogReadingFile (localFilePath : string)
| LogFileRead (bytes : nat)
| LogUploadingTo (url : string)
| LogUploadFailed (status : Z) (errorText : string)
| LogUploaded (path : string)
| LogTriggeringPreview (url : string)
| LogPreviewFailed (status : Z)
| LogPreviewTriggered
| LogPublishing (url : string)
| LogPublishFailed (status : Z)
| LogPublishTriggered
| LogAvailable (url : string)
| LogWorkflowFailed (error : Thrown)
| LogErrorDetails (name message : option string)
| LogCaught (error : Thrown).

(** The observable effects, in the order they happen. *)
Inductive Event : Type :=
| EvInvoke                      (* retryWithBackoff calls its operation *)
| EvFetch (req : Request)       (* fetch(url, init) *)
| EvReadFile (path : string)    (* readFileSync(path) *)
| EvSleep (ms : Z)              (* await new Promise(r => setTimeout(r, ms)) *)
| EvLog (line : LogLine).       (* console.error(...) *)

Inductive Outcome (A : Type) : Type :=
| Return (a : A)
| Throw (t : Thrown).
Arguments Return {A} a.
Arguments Throw {A} t.

(* ===================================================================== *)
(** ** The effect monad *)
(* ===================================================================== *)

Section Effects.

(** State of everything outside the program. *)
Variable W : Type.

Definition M (A : Type) : Type := W -> Outcome A * W * list Event.

Definition ret {A} (a : A) : M A := fun w => (Return a, w, []).

Definition throw {A} (t : Thrown) : M A := fun w => (Throw t, w, []).

Definition bind {A B} (m : M A) (k : A -> M B) : M B :=
  fun w =>
    match m w with
    | (Return a, w1, t1) =>
        let '(r, w2, t2) := k a w1 in (r, w2, (t1 ++ t2)%list)
    | (Throw e, w1, t1) => (Throw e, w1, t1)
    end.

(** [try { m } catch (error) { h error }] *)
Definition tryCatch {A} (m : M A) (h : Thrown -> M A) : M A :=
  fun w =>
    match m w with
    | (Return a, w1, t1) => (Return a, w1, t1)
    | (Throw e, w1, t1) =>
        let '(r, w2, t2) := h e w1 in (r, w2, (t1 ++ t2)%list)
    end.

Definition emit (ev : Event) : M unit := fun w => (Return tt, w, [ev]).

Definition consoleError (line : LogLine) : M unit := emit (EvLog line).

Definition sleep (ms : Z) : M unit := emit (EvSleep ms).

(** [error.message], as the receiver of [includes]: a TypeError when
    [error] is no Error. *)
Definition messageOf (error : Thrown) : M string :=
  match error with
  | ThrownError e => ret (message e)
  | ThrownValue v => throw (ThrownError (messageTypeError v))
  end.

(** [{ name: error.name, message: error.message }]: reading a property of
    [undefined] or [null] is a TypeError. *)
Definition errorDetails (error : Thrown) : M LogLine :=
  match error with
  | ThrownError e => ret (LogErrorDetails (Some (name e)) (Some (message e)))
  | ThrownValue (NoMessage nameProperty) => ret (LogErrorDetails nameProperty None)
  | ThrownValue v => throw (ThrownError (catchTypeError v))
  end.

(** [await response.text()] *)
Definition responseText (response : Response) : M string :=
  match text response with
  | inr body => ret body
  | inl e => throw (ThrownError e)
  end.

Notation "x <- m ;; k" := (bind m (fun x => k))
  (at level 61, m at next level, right associativity).
Notation "m ;;; k" := (bind m (fun _ => k))
  (at level 61, right associativity).

(* ===================================================================== *)
(** ** retryWithBackoff (operations/source.js) *)
(* ===================================================================== *)

(** The classification in the catch clause of retryWithBackoff. *)
Definition isRetryable (msg : string) : bool :=
  includes msg "Failed to fetch" ||
  includes msg "SSL" ||
  includes msg "TLS" ||
  includes msg "Network" ||
  includes msg "ECONNRESET".

(** The [for] loop, from the iteration whose counter is [attempt];
    [lastError] is the variable of that name. *)
Equations? retryLoop {A} (fn : M A) (maxRetries initialDelay : Z)
    (attempt : Z) (lastError : Thrown) : M A
    by wf (Z.to_nat (maxRetries + 1 - attempt)) lt :=
  retryLoop fn maxRetries initialDelay attempt lastError
    with Z_le_gt_dec attempt maxRetries := {
    | left _ =>
        tryCatch (emit EvInvoke ;;; fn)
          (fun error =>
             msg <- messageOf error ;;
             if negb (isRetryable msg) || (attempt =? maxRetries)
             then throw error
             else
               let delay := initialDelay * 2 ^ attempt in
               consoleError (LogAttemptFailed (attempt + 1) msg delay) ;;;
               sleep delay ;;;
               retryLoop fn maxRetries initialDelay (attempt + 1) error)
    | right _ => throw lastError }.
Proof. lia. Qed.

Definition retryWithBackoff {A} (fn : M A) (maxRetries initialDelay : Z) : M A :=
  retryLoop fn maxRetries initialDelay 0 ThrownUndefined.

(* ===================================================================== *)
(** ** Capabilities of the platform *)
(* ===================================================================== *)

(** The HTTP transport behind [fetch]: it rejects with an error or resolves
    to a response, and moves the outside world on. *)
Variable transport : Request -> W -> (JsError + Response) * W.

(** The file system behind [readFileSync]: the file's bytes, or an error. *)
Variable fileSystem : string -> W -> (JsError + string) * W.

(** [process.env.DA_ADMIN_API_TOKEN] *)
Variable DA_ADMIN_API_TOKEN : option string.

(** Constants of common/global.js. *)
Variable USER_AGENT : string.
Variable ADMIN_API_URL : string.

(** [JSON.parse] ([None] when it throws) and [JSON.stringify(v, null, n)]. *)
Variable JSON_parse : string -> option Json.
Variable JSON_stringify : Json -> Z -> string.

Definition fetch (req : Request) : M Response :=
  fun w =>
    match transport req w with
    | (inl e, w1) => (Throw (ThrownError e), w1, [EvFetch req])
    | (inr r, w1) => (Return r, w1, [EvFetch req])
    end.

Definition readFileSync (path : string) : M string :=
  fun w =>
    match fileSystem path w with
    | (inl e, w1) => (Throw (ThrownError e), w1, [EvReadFile path])
    | (inr bytes, w1) => (Return bytes, w1, [EvReadFile path])
    end.

(** [`${process.env.DA_ADMIN_API_TOKEN}`] *)
Definition tokenText : string :=
  match DA_ADMIN_API_TOKEN with
  | Some t => t
  | None => "undefined"
  end.

(* ===================================================================== *)
(** ** common/utils.js *)
(* ===================================================================== *)

(** [response.json()], with [None] for a rejected promise: the body cannot
    be read, or it is not JSON. *)
Definition responseJson (response : Response) : option Json :=
  match text response with
  | inr body => JSON_parse body
  | inl _ => None
  end.

Definition parseResponseBody (response : Response) : M Json :=
  match contentTypeHeader response with
  | Some contentType =>
      if includes contentType "application/json" then
        match responseJson response with
        | Some v => ret v
        | None => ret (JObject [])    (* empty body or invalid JSON *)
        end
      else body <- responseText response ;; ret (JText body)
  | None => body <- responseText response ;; ret (JText body)
  end.

Record Options : Type := mkOptions {
  optMethod : option string;
  optHeaders : list (string * string);
  optBody : option (list FormEntry)
}.

Definition noOptions : Options := mkOptions None [] None.

(** [obj[key] = value] on an object kept as its ordered list of entries:
    a key already present keeps its place, a new one goes last (header
    names are not array indices, which JavaScript would list first). *)
Fixpoint setProperty (obj : list (string * string)) (key value : string)
  : list (string * string) :=
  match obj with
  | [] => [(key, value)]
  | (k, v) :: rest =>
      if String.eqb k key then (k, value) :: rest
      else (k, v) :: setProperty rest key value
  end.

Definition truthyString (s : string) : bool := negb (String.eqb s EmptyString).

(** The arguments of the [fetch] call of daAdminRequest: [url] and [init]. *)
Definition daAdminInit (url : string) (options : Options) : Request :=
  let headers :=
    fold_left (fun h kv => setProperty h (fst kv) (snd kv))
      (optHeaders options) [("User-Agent", USER_AGENT)] in
  let headers :=
    match DA_ADMIN_API_TOKEN with
    | Some t =>
        if truthyString t
        then setProperty headers "Authorization" ("Bearer " ++ t)
        else headers
    | None => headers
    end in
  let init_method :=
    match optMethod options with
    | Some m => if truthyString m then m else "GET"
    | None => "GET"
    end in
  mkRequest url init_method headers (optBody options).

(** [typeof responseBody === 'string' ? responseBody
                                      : JSON.stringify(responseBody)] *)
Definition errorMessageOf (responseBody : Json) : string :=
  match responseBody with
  | JText s => s
  | other => JSON_stringify other 0
  end.

Definition daAdminRequest (url : string) (options : Options) : M Json :=
  response <- fetch (daAdminInit url options) ;;
  responseBody <- parseResponseBody response ;;
  if negb (ok response) then
    let errorMessage := errorMessageOf responseBody in
    throw (ThrownError
      (newError (numberToString (status response) ++ ": " ++ errorMessage)))
  else ret responseBody.

(** The MCP tool result: [{ content: [{ type: "text", text }] }]. *)
Record ToolContent : Type := mkContent { contentKind : string; contentText : string }.

Definition daAdminResponseFormat (data : Json) : list ToolContent :=
  [mkContent "text" (JSON_stringify data 2)].

Definition formatURL (api org repo path ext : string) : string :=
  let cleanPath := if startsWith path "/" then slice1 path else path in
  let cleanPath :=
    if truthyString ext then
      let expectedExt := "." ++ ext in
      if negb (endsWith cleanPath expectedExt)
      then cleanPath ++ expectedExt
      else cleanPath
    else cleanPath in
  ADMIN_API_URL ++ "/" ++ api ++ "/" ++ org ++ "/" ++ repo ++ "/" ++ cleanPath.

(* ===================================================================== *)
(** ** operations/source.js *)
(* ===================================================================== *)

Definition getSource (org repo path ext : string) : M (list ToolContent) :=
  tryCatch
    (let url := formatURL "source" org repo path ext in
     data <- daAdminRequest url noOptions ;;
     ret (daAdminResponseFormat data))
    (fun error => consoleError (LogCaught error) ;;; throw error).

Definition createSource (org repo path ext content : string)
  : M (list ToolContent) :=
  tryCatch
    (let url := formatURL "source" org repo path ext in
     let type := if String.eqb ext "html" then "text/html" else "application/json" in
     let blob := mkBlob content (JsString type) in
     let body := [mkEntry "data" blob None] in
     data <- daAdminRequest url (mkOptions (Some "POST") [] (Some body)) ;;
     ret (daAdminResponseFormat data))
    (fun error => consoleError (LogCaught error) ;;; throw error).

Definition deleteSource (org repo path ext : string) : M (list ToolContent) :=
  tryCatch
    (let url := formatURL "source" org repo path ext in
     data <- daAdminRequest url (mkOptions (Some "DELETE") [] None) ;;
     ret (daAdminResponseFormat data))
    (fun error => consoleError (LogCaught error) ;;; throw error).

(** The object literal [mimeTypes] of uploadAsset: its own properties. *)
Definition mimeTypes : list (string * string) :=
  [ ("png", "image/png");
    ("jpg", "image/jpeg");
    ("jpeg", "image/jpeg");
    ("gif", "image/gif");
    ("webp", "image/webp");
    ("svg", "image/svg+xml");
    ("pdf", "application/pdf");
    ("mp4", "video/mp4");
    ("webm", "video/webm") ].

(** What every object literal inherits from [Object.prototype]. *)
Definition objectPrototypeMembers : list string :=
  [ "constructor"; "__defineGetter__"; "__defineSetter__"; "hasOwnProperty";
    "__lookupGetter__"; "__lookupSetter__"; "isPrototypeOf";
    "propertyIsEnumerable"; "toString"; "valueOf"; "__proto__";
    "toLocaleString" ].

Fixpoint ownProperty (obj : list (string * string)) (key : string)
  : option string :=
  match obj with
  | [] => None
  | (k, v) :: rest => if String.eqb k key then Some v else ownProperty rest key
  end.

(** [obj[key]] on an object literal: the own property, else the member
    inherited through the prototype chain, else [undefined]. *)
Definition getProperty (obj : list (string * string)) (key : string) : JsValue :=
  match ownProperty obj key with
  | Some v => JsString v
  | None =>
      if existsb (String.eqb key) objectPrototypeMembers
      then JsBuiltin key
      else JsUndefined
  end.

(** [a || b] *)
Definition orElse (a b : JsValue) : JsValue := if truthy a then a else b.

(** The block "Auto-detect content type if not provided". *)
Definition resolveMimeType (contentType : option string) (localFilePath : string)
  : JsValue :=
  let mimeType :=
    match contentType with
    | Some c => JsString c
    | None => JsUndefined
    end in
  if negb (truthy mimeType) then
    let ext := toLowerCase (pop (split "." localFilePath)) in
    orElse (getProperty mimeTypes ext) (JsString "application/octet-stream")
  else mimeType.

Record UploadResult : Type := mkUploadResult {
  success : bool;
  path : string;
  previewUrl : string;
  liveUrl : string;
  contentType : JsValue;
  size : nat
}.

Definition authorization : list (string * string) :=
  [("Authorization", "Bearer " ++ tokenText)].

(** Step 2, the operation handed to the executor. *)
Definition uploadOperation (uploadUrl path fileBuffer : string)
    (mimeType : JsValue) : M unit :=
  let blob := mkBlob fileBuffer mimeType in
  let filename := pop (split "/" path) in
  let formData := [mkEntry "data" blob (Some filename)] in
  uploadResponse <-
    fetch (mkRequest uploadUrl "POST" authorization (Some formData)) ;;
  if negb (ok uploadResponse) then
    errorText <- responseText uploadResponse ;;
    consoleError (LogUploadFailed (status uploadResponse) errorText) ;;;
    throw (ThrownError
      (newError ("DA upload failed: " ++ numberToString (status uploadResponse))))
  else consoleError (LogUploaded path).

(** Step 3, the operation handed to the executor. *)
Definition previewOperation (previewUrl : string) : M unit :=
  previewResponse <- fetch (mkRequest previewUrl "POST" authorization None) ;;
  if negb (ok previewResponse)
  then consoleError (LogPreviewFailed (status previewResponse))
  else consoleError LogPreviewTriggered.

(** Step 4, the operation handed to the executor. *)
Definition publishOperation (publishUrl : string) : M unit :=
  publishResponse <- fetch (mkRequest publishUrl "POST" authorization None) ;;
  if negb (ok publishResponse)
  then consoleError (LogPublishFailed (status publishResponse))
  else consoleError LogPublishTriggered.

Definition networkDiagnostic (originalMessage : string) : string :=
  "Network error uploading to DA after multiple retries. This could be:" ++ newline ++
  "- SSL/TLS issue (ERR_SSL_BAD_RECORD_MAC_ALERT)" ++ newline ++
  "- Network connectivity problem" ++ newline ++
  "- DA API rate limiting" ++ newline ++
  "- Server connection limit" ++ newline ++
  "Original error: " ++ originalMessage ++ newline ++ newline ++
  "Try again in a few moments.".

(** The condition of the [if] in the catch clause of uploadAsset. *)
Definition isNetworkFailure (msg : string) : bool :=
  includes msg "Failed to fetch" || includes msg "SSL" || includes msg "TLS".

(** The catch clause of uploadAsset. *)
Definition uploadAssetCatch {A} (error : Thrown) : M A :=
  consoleError (LogWorkflowFailed error) ;;;
  details <- errorDetails error ;;
  consoleError details ;;;
  msg <- messageOf error ;;
  if isNetworkFailure msg
  then throw (ThrownError (newError (networkDiagnostic msg)))
  else throw (ThrownError (newError ("Failed to upload asset to DA: " ++ msg))).

(** The try block of uploadAsset. *)
Definition uploadAssetTry (org repo path localFilePath : string)
    (contentType : option string) : M UploadResult :=
  (* Step 1 *)
  consoleError (LogReadingFile localFilePath) ;;;
  fileBuffer <- readFileSync localFilePath ;;
  consoleError (LogFileRead (String.length fileBuffer)) ;;;
  let mimeType := resolveMimeType contentType localFilePath in
  (* Step 2 *)
  let uploadUrl :=
    "https://admin.da.live/source/" ++ org ++ "/" ++ repo ++ "/" ++ path in
  consoleError (LogUploadingTo uploadUrl) ;;;
  retryWithBackoff (uploadOperation uploadUrl path fileBuffer mimeType) 3 1000 ;;;
  (* Step 3 *)
  let previewUrl :=
    "https://admin.hlx.page/preview/" ++ org ++ "/" ++ repo ++ "/main/" ++ path in
  consoleError (LogTriggeringPreview previewUrl) ;;;
  retryWithBackoff (previewOperation previewUrl) 2 500 ;;;
  sleep 1000 ;;;
  (* Step 4 *)
  let publishUrl :=
    "https://admin.hlx.page/live/" ++ org ++ "/" ++ repo ++ "/main/" ++ path in
  consoleError (LogPublishing publishUrl) ;;;
  retryWithBackoff (publishOperation publishUrl) 2 500 ;;;
  sleep 800 ;;;
  (* Step 5 *)
  let edsUrl := "https://main--" ++ repo ++ "--" ++ org ++ ".aem.page/" ++ path in
  let liveUrl := "https://main--" ++ repo ++ "--" ++ org ++ ".aem.live/" ++ path in
  consoleError (LogAvailable edsUrl) ;;;
  ret (mkUploadResult true path edsUrl liveUrl mimeType (String.length fileBuffer)).

Definition uploadAsset (org repo path localFilePath : string)
    (contentType : option string) : M UploadResult :=
  consoleError (LogUploadingAsset path) ;;;
  tryCatch (uploadAssetTry org repo path localFilePath contentType)
           uploadAssetCatch.

End Effects.

Notation "x <- m ;; k" := (bind m (fun x => k))
  (at level 61, m at next level, right associativity).
Notation "m ;;; k" := (bind m (fun _ => k))
  (at level 61, right associativity).

(* ===================================================================== *)
(** ** Observations on traces *)
(* ===================================================================== *)

(** The events the executor itself produces: calls of the operation and
    backoff timers. *)
Definition isExecutorEvent (ev : Event) : bool :=
  match ev with
  | EvInvoke | EvSleep _ => true
  | _ => false
  end.

Definition executorEvents (t : list Event) : list Event :=
  filter isExecutorEvent t.

(** How many times the retried operation was called. *)
Fixpoint invocations (t : list Event) : nat :=
  match t with
  | [] => 0%nat
  | EvInvoke :: t' => S (invocations t')
  | _ :: t' => invocations t'
  end.

(** The timers, in order. *)
Fixpoint delays (t : list Event) : list Z :=
  match t with
  | [] => []
  | EvSleep ms :: t' => ms :: delays t'
  | _ :: t' => delays t'
  end.

(** The requests sent, in order. *)
Fixpoint fetches (t : list Event) : list Request :=
  match t with
  | [] => []
  | EvFetch req :: t' => req :: fetches t'
  | _ :: t' => fetches t'
  end.

(** The timer awaited just before invocation number [i] (0-indexed) and
    after the invocation that precedes it; [pending] is the timer seen since
    the last invocation. *)
Fixpoint delayBefore (i : nat) (t : list Event) (pending : option Z) : option Z :=
  match t with
  | [] => None
  | EvInvoke :: t' =>
      match i with
      | O => pending
      | S i' => delayBefore i' t' None
      end
  | EvSleep ms :: t' => delayBefore i t' (Some ms)
  | _ :: t' => delayBefore i t' pending
  end.

(** The executor's events when every attempt but the last is followed by a
    retry: [retries] timers between [retries + 1] invocations, the first
    timer being the one computed at iteration [attempt]. *)
Fixpoint schedule (initialDelay attempt : Z) (retries : nat) : list Event :=
  match retries with
  | O => [EvInvoke]
  | S n => EvInvoke :: EvSleep (initialDelay * 2 ^ attempt)
             :: schedule initialDelay (attempt + 1) n
  end.

Definition outcomeOf {W A} (r : Outcome A * W * list Event) : Outcome A :=
  fst (fst r).
Definition worldOf {W A} (r : Outcome A * W * list Event) : W :=
  snd (fst r).
Definition traceOf {W A} (r : Outcome A * W * list Event) : list Event :=
  snd r.

(** An operation that neither calls a retried operation nor sets a timer
    itself: every such event of a run is the executor's. *)
Definition Quiet {W A} (fn : M W A) : Prop :=
  forall w, executorEvents (traceOf (fn w)) = [].

(** An operation that fails on each invocation with a transient error. *)
Definition AlwaysTransient {W A} (fn : M W A) : Prop :=
  forall w, exists e,
    outcomeOf (fn w) = Throw (ThrownError e) /\ isRetryable (message e) = true.

(** The world after [n] consecutive invocations of [fn]. *)
Fixpoint worldAfter {W A} (fn : M W A) (n : nat) (w : W) : W :=
  match n with
  | O => w
  | S n' => worldAfter fn n' (worldOf (fn w))
  end.

(** The path formatURL works on after its first step. *)
Definition cleanLeadingSlash (path : string) : string :=
  if startsWith path "/" then slice1 path else path.

(** The character [c] occurs in [s]. *)
Fixpoint occurs (c : ascii) (s : string) : bool :=
  match s with
  | EmptyString => false
  | String b s' => Ascii.eqb c b || occurs c s'
  end.

(** The three endpoints of the upload workflow. *)
Definition uploadUrlOf (org repo path : string) : string :=
  "https://admin.da.live/source/" ++ org ++ "/" ++ repo ++ "/" ++ path.

Definition previewUrlOf (org repo path : string) : string :=
  "https://admin.hlx.page/preview/" ++ org ++ "/" ++ repo ++ "/main/" ++ path.

Definition publishUrlOf (org repo path : string) : string :=
  "https://admin.hlx.page/live/" ++ org ++ "/" ++ repo ++ "/main/" ++ path.

(** The request of step 2 and the request of steps 3 and 4. *)
Definition uploadRequestOf (token : option string) (org repo path bytes : string)
    (mimeType : JsValue) : Request :=
  mkRequest (uploadUrlOf org repo path) "POST" (authorization token)
    (Some [mkEntry "data" (mkBlob bytes mimeType) (Some (pop (split "/" path)))]).

Definition triggerRequestOf (token : option string) (url : string) : Request :=
  mkRequest url "POST" (authorization token) None.

(** The result of a completed upload workflow. *)
Definition uploadResultOf (org repo path bytes : string) (mimeType : JsValue)
  : UploadResult :=
  mkUploadResult true path
    ("https://main--" ++ repo ++ "--" ++ org ++ ".aem.page/" ++ path)
    ("https://main--" ++ repo ++ "--" ++ org ++ ".aem.live/" ++ path)
    mimeType (String.length bytes).

(** What the catch clause of uploadAsset throws for the error [e]. *)
Definition rethrown (e : JsError) : JsError :=
  newError (if isNetworkFailure (message e)
            then networkDiagnostic (message e)
            else "Failed to upload asset to DA: " ++ message e).

(* ===================================================================== *)
(** ** Test doubles *)
(* ===================================================================== *)

(** A scripted outside world: each fetch consumes the next outcome of the
    script; once the script is used up every request gets 200 OK. *)
Definition Script : Type := list (JsError + Response).

Definition okResponse : Response := mkResponse true 200 None (inr EmptyString).

Definition scriptedTransport (req : Request) (w : Script)
  : (JsError + Response) * Script :=
  match w with
  | [] => (inr okResponse, [])
  | outcome :: rest => (outcome, rest)
  end.

(** A file system where every path holds the same bytes. *)
Definition fixedFile (bytes : string) (path : string) (w : Script)
  : (JsError + string) * Script :=
  (inr bytes, w).

(** What a browser's fetch rejects with when the network is down. *)
Definition failedToFetch : JsError := mkError "TypeError" "Failed to fetch".

(** An operation that fails on every call with the same message; the world
    is the number of calls made so far. *)
Definition alwaysFails (msg : string) : M nat unit :=
  fun calls => (Throw (ThrownError (newError msg)), S calls, []).

(** A parser that knows two documents, and a printer for them. *)
Definition sampleParse (s : string) : option Json :=
  if String.eqb s "{}" then Some (JObject [])
  else if String.eqb s "null" then Some JNull
  else None.

Definition sampleStringify (v : Json) (indent : Z) : string :=
  match v with
  | JObject [] => "{}"
  | JNull => "null"
  | _ => "[object]"
  end.

(** [Number.MAX_SAFE_INTEGER]: up to it the integers are doubles and their
    sums and products are exact. *)
Definition MAX_SAFE_INTEGER : Z := 9007199254740991.

(** The arguments of retryWithBackoff for which the arithmetic of the loop
    is exact on doubles: the attempt counter, [Math.pow(2, attempt)] and
    [initialDelay * Math.pow(2, attempt)] stay integers of magnitude at most
    [Number.MAX_SAFE_INTEGER] (beyond, the product rounds and ends in
    [Infinity]). *)
Definition inSafeRange (maxRetries initialDelay : Z) : Prop :=
  2 ^ maxRetries <= MAX_SAFE_INTEGER /\
  Z.abs initialDelay * 2 ^ maxRetries <= MAX_SAFE_INTEGER.

(** The sum of the delays handed to the backoff timers and settle delays. *)
Definition totalDelay (t : list Event) : Z := fold_right Z.add 0 (delays t).

(** How many times the file system was read. *)
Fixpoint fileReads (t : list Event) : nat :=
  match t with
  | [] => 0%nat
  | EvReadFile _ :: t' => S (fileReads t')
  | _ :: t' => fileReads t'
  end.

(** An operation that fails with [msg] on its first [failures] calls and
    returns [true] from then on; the world is the number of calls so far. *)
Definition failsThenSucceeds (failures : nat) (msg : string) : M nat bool :=
  fun calls =>
    if (calls <? failures)%nat
    then (Throw (ThrownError (newError msg)), S calls, [])
    else (Return true, S calls, []).

(** A file system without the file. *)
Definition missingFile (path : string) (w : Script) : (JsError + string) * Script :=
  (inl (mkError "Error" ("ENOENT: no such file or directory, open '" ++ path ++ "'")), w).

(* ===================================================================== *)
(** ** The retry loop, step by step *)
(* ===================================================================== *)

(** The defining equation of the loop, as the source reads. *)
Lemma retryLoop_eq {W A} (fn : M W A) maxRetries initialDelay attempt lastError :
  retryLoop fn maxRetries initialDelay attempt lastError =
  if attempt <=? maxRetries then
    tryCatch (emit EvInvoke ;;; fn)
      (fun error =>
         msg <- messageOf error ;;
         if negb (isRetryable msg) || (attempt =? maxRetries)
         then throw error
         else
           let delay := initialDelay * 2 ^ attempt in
           consoleError (LogAttemptFailed (attempt + 1) msg delay) ;;;
           sleep delay ;;;
           retryLoop fn maxRetries initialDelay (attempt + 1) error)
  else throw lastError.
Proof.
  rewrite retryLoop_equation_1.
  destruct (Z_le_gt_dec attempt maxRetries) as [Hle | Hgt]; simpl.
  - apply Z.leb_le in Hle. rewrite Hle. reflexivity.
  - apply Z.gt_lt, Z.leb_gt in Hgt. rewrite Hgt. reflexivity.
Qed.

(* ===================================================================== *)
(** ** Facts on traces *)
(* ===================================================================== *)

Lemma executorEvents_app t1 t2 :
  executorEvents (t1 ++ t2) = (executorEvents t1 ++ executorEvents t2)%list.
Proof. apply filter_app. Qed.

Lemma fetches_app t1 t2 : fetches (t1 ++ t2) = (fetches t1 ++ fetches t2)%list.
Proof.
  induction t1 as [| ev t1 IH]; [reflexivity |].
  destruct ev; cbn; rewrite ?IH; reflexivity.
Qed.

Lemma executorEvents_invoke t :
  executorEvents (EvInvoke :: t) = EvInvoke :: executorEvents t.
Proof. reflexivity. Qed.

Lemma executorEvents_sleep ms t :
  executorEvents (EvSleep ms :: t) = EvSleep ms :: executorEvents t.
Proof. reflexivity. Qed.

Lemma executorEvents_log line t :
  executorEvents (EvLog line :: t) = executorEvents t.
Proof. reflexivity. Qed.

Arguments executorEvents : simpl never.

Lemma invocations_executorEvents t :
  invocations (executorEvents t) = invocations t.
Proof.
  induction t as [| ev t IH]; [reflexivity |].
  destruct ev; simpl; auto.
Qed.

Lemma delays_executorEvents t : delays (executorEvents t) = delays t.
Proof.
  induction t as [| ev t IH]; [reflexivity |].
  destruct ev; simpl; auto. f_equal; exact IH.
Qed.

Lemma delayBefore_executorEvents t :
  forall i pending,
    delayBefore i (executorEvents t) pending = delayBefore i t pending.
Proof.
  induction t as [| ev t IH]; intros i pending; [reflexivity |].
  destruct ev; simpl; auto.
  destruct i; auto.
Qed.

Lemma invocations_schedule d n : forall a, invocations (schedule d a n) = S n.
Proof. induction n as [| n IH]; intro a; simpl; [reflexivity | now rewrite IH]. Qed.

Lemma delays_schedule d n :
  forall a, delays (schedule d a n) =
            map (fun i => d * 2 ^ (a + Z.of_nat i)) (seq 0 n).
Proof.
  induction n as [| n IH]; intro a; simpl; [reflexivity |].
  rewrite IH, <- seq_shift, map_map. f_equal.
  - now rewrite Z.add_0_r.
  - apply map_ext. intro i. do 2 f_equal. lia.
Qed.

Lemma delayBefore_schedule d n :
  forall a i pending ms,
    delayBefore (S i) (schedule d a n) pending = Some ms ->
    ms = d * 2 ^ (a + Z.of_nat i).
Proof.
  induction n as [| n IH]; intros a i pending ms H; simpl in H.
  - destruct i; discriminate.
  - destruct i as [| i].
    + destruct n; simpl in H; injection H as <-; now rewrite Z.add_0_r.
    + apply IH in H. rewrite H. do 2 f_equal. lia.
Qed.

Lemma delayBefore_schedule_spec d n :
  forall a i pending,
    delayBefore (S i) (schedule d a n) pending =
    if (i <? n)%nat then Some (d * 2 ^ (a + Z.of_nat i)) else None.
Proof.
  induction n as [| n IH]; intros a i pending.
  - destruct i; reflexivity.
  - cbn [schedule delayBefore]. destruct i as [| i].
    + destruct n; cbn; now rewrite Z.add_0_r.
    + rewrite IH. change (S i <? S n)%nat with (i <? n)%nat.
      destruct (i <? n)%nat; [| reflexivity].
      do 3 f_equal. lia.
Qed.

Lemma safe_delay R d i :
  inSafeRange R d -> 0 <= i <= R -> Z.abs (d * 2 ^ i) <= MAX_SAFE_INTEGER.
Proof.
  intros [_ H] Hi. rewrite Z.abs_mul, (Z.abs_eq (2 ^ i)) by (apply Z.pow_nonneg; lia).
  apply Z.le_trans with (Z.abs d * 2 ^ R); [| exact H].
  apply Z.mul_le_mono_nonneg_l; [apply Z.abs_nonneg |].
  apply Z.pow_le_mono_r; lia.
Qed.

(* ===================================================================== *)
(** ** One iteration of the retry loop *)
(* ===================================================================== *)

Section RetryIteration.

Context {W A : Type}.
Variable fn : M W A.
Variables maxRetries initialDelay : Z.

(** The loop is over: [throw lastError]. *)
Lemma retryLoop_exit attempt lastError w :
  maxRetries < attempt ->
  retryLoop fn maxRetries initialDelay attempt lastError w
  = (Throw lastError, w, []).
Proof.
  intro H. rewrite retryLoop_eq.
  apply Z.leb_gt in H. rewrite H. reflexivity.
Qed.

(** The operation succeeds: its value is returned at once. *)
Lemma retryLoop_success attempt lastError w a w1 t1 :
  attempt <= maxRetries ->
  fn w = (Return a, w1, t1) ->
  retryLoop fn maxRetries initialDelay attempt lastError w
  = (Return a, w1, EvInvoke :: t1).
Proof.
  intros H Hfn. rewrite retryLoop_eq.
  apply Z.leb_le in H. rewrite H.
  unfold tryCatch, bind, emit. rewrite Hfn. reflexivity.
Qed.

(** The operation fails and the error is re-thrown: it is not retryable,
    or this was the last attempt. *)
Lemma retryLoop_rethrow attempt lastError w e w1 t1 :
  attempt <= maxRetries ->
  fn w = (Throw (ThrownError e), w1, t1) ->
  isRetryable (message e) = false \/ attempt = maxRetries ->
  retryLoop fn maxRetries initialDelay attempt lastError w
  = (Throw (ThrownError e), w1, EvInvoke :: t1).
Proof.
  intros H Hfn Hstop. rewrite retryLoop_eq.
  apply Z.leb_le in H. rewrite H.
  unfold tryCatch, bind, emit. rewrite Hfn. cbn.
  assert (Hc : negb (isRetryable (message e)) || (attempt =? maxRetries) = true).
  { destruct Hstop as [-> | ->]; [reflexivity |].
    rewrite Z.eqb_refl. apply orb_true_r. }
  rewrite Hc. cbn. now rewrite app_nil_r.
Qed.

(** The operation fails with a retryable error before the last attempt:
    one console line, one timer, and the next iteration. *)
Lemma retryLoop_retry attempt lastError w e w1 t1 :
  attempt < maxRetries ->
  fn w = (Throw (ThrownError e), w1, t1) ->
  isRetryable (message e) = true ->
  retryLoop fn maxRetries initialDelay attempt lastError w
  = let '(r, w2, t2) :=
      retryLoop fn maxRetries initialDelay (attempt + 1) (ThrownError e) w1 in
    (r, w2,
     (EvInvoke :: t1 ++
      EvLog (LogAttemptFailed (attempt + 1) (message e)
               (initialDelay * 2 ^ attempt))
      :: EvSleep (initialDelay * 2 ^ attempt) :: t2)%list).
Proof.
  intros H Hfn Hretry. rewrite retryLoop_eq.
  assert (Hle : (attempt <=? maxRetries) = true) by (apply Z.leb_le; lia).
  assert (Hne : (attempt =? maxRetries) = false) by (apply Z.eqb_neq; lia).
  rewrite Hle.
  unfold tryCatch, bind, emit. rewrite Hfn. cbn.
  rewrite Hretry, Hne. cbn.
  unfold consoleError, sleep, emit. cbn.
  destruct (retryLoop fn maxRetries initialDelay (attempt + 1) (ThrownError e) w1)
    as [[r w2] t2].
  reflexivity.
Qed.

(** The operation throws a value that is no Error: reading its [message]
    fails. *)
Lemma retryLoop_undefined attempt lastError w w1 t1 v :
  attempt <= maxRetries ->
  fn w = (Throw (ThrownValue v), w1, t1) ->
  exists e,
    retryLoop fn maxRetries initialDelay attempt lastError w
    = (Throw (ThrownError e), w1, EvInvoke :: t1).
Proof.
  intros H Hfn. rewrite retryLoop_eq.
  apply Z.leb_le in H. rewrite H.
  unfold tryCatch, bind, emit. rewrite Hfn. cbn.
  eexists. now rewrite app_nil_r.
Qed.

End RetryIteration.

(* ===================================================================== *)
(** ** Whole runs of the retrying executor *)
(* ===================================================================== *)

Section RetryRuns.

Context {W A : Type}.
Variable fn : M W A.
Variables maxRetries initialDelay : Z.

Lemma quiet_trace w o w1 t1 :
  Quiet fn -> fn w = (o, w1, t1) -> executorEvents t1 = [].
Proof. intros Hq Hfn. specialize (Hq w). now rewrite Hfn in Hq. Qed.

(** With [retries] iterations left after this one and an operation that
    always fails transiently, the loop runs them all. *)
Lemma retryLoop_exhausts :
  AlwaysTransient fn -> Quiet fn ->
  forall (retries : nat) attempt lastError w,
    Z.of_nat retries = maxRetries - attempt ->
    let r := retryLoop fn maxRetries initialDelay attempt lastError w in
    outcomeOf r = outcomeOf (fn (worldAfter fn retries w)) /\
    worldOf r = worldAfter fn (S retries) w /\
    executorEvents (traceOf r) = schedule initialDelay attempt retries.
Proof.
  intros Hfail Hquiet.
  induction retries as [| n IH]; intros attempt lastError w Hn r; subst r.
  - destruct (fn w) as [[o w1] t1] eqn:Hfn.
    destruct (Hfail w) as (e & Ho & Hre).
    rewrite Hfn in Ho. cbn in Ho. subst o.
    rewrite (retryLoop_rethrow fn initialDelay lastError w
               (attempt:=attempt) (maxRetries:=maxRetries)
               ltac:(lia) Hfn ltac:(right; lia)).
    cbn. rewrite Hfn. cbn. repeat split.
    now rewrite executorEvents_invoke, (quiet_trace Hquiet Hfn).
  - destruct (fn w) as [[o w1] t1] eqn:Hfn.
    destruct (Hfail w) as (e & Ho & Hre).
    rewrite Hfn in Ho. cbn in Ho. subst o.
    rewrite (retryLoop_retry fn initialDelay lastError w
               (attempt:=attempt) (maxRetries:=maxRetries)
               ltac:(lia) Hfn Hre).
    specialize (IH (attempt + 1) (ThrownError e) w1 ltac:(lia)).
    cbn zeta in IH.
    destruct (retryLoop fn maxRetries initialDelay (attempt + 1) (ThrownError e) w1)
      as [[r w2] t2].
    cbn in IH. destruct IH as (IHo & IHw & IHt).
    cbn. rewrite Hfn. cbn. repeat split; auto.
    rewrite executorEvents_invoke, executorEvents_app, (quiet_trace Hquiet Hfn).
    cbn [app]. now rewrite executorEvents_log, executorEvents_sleep, IHt.
Qed.

(** Whatever the operation does, the executor's events form a schedule of
    at most [retries] retries. *)
Lemma retryLoop_schedule :
  Quiet fn ->
  forall (retries : nat) attempt lastError w,
    Z.of_nat retries = maxRetries - attempt ->
    exists k, (k <= retries)%nat /\
      executorEvents
        (traceOf (retryLoop fn maxRetries initialDelay attempt lastError w))
      = schedule initialDelay attempt k.
Proof.
  intro Hquiet.
  assert (Hone : forall w o w1 t1, fn w = (o, w1, t1) ->
            executorEvents (EvInvoke :: t1) = schedule initialDelay 0 0).
  { intros w o w1 t1 Hfn.
    now rewrite executorEvents_invoke, (quiet_trace Hquiet Hfn). }
  induction retries as [| n IH]; intros attempt lastError w Hn;
    destruct (fn w) as [[o w1] t1] eqn:Hfn;
    destruct o as [a | [| e]].
  1, 4: exists 0%nat; split; [lia |];
        rewrite (retryLoop_success fn initialDelay lastError w
                   (attempt:=attempt) (maxRetries:=maxRetries)
                   ltac:(lia) Hfn);
        exact (Hone _ _ _ _ Hfn).
  1, 3: exists 0%nat; split; [lia |];
        destruct (retryLoop_undefined fn initialDelay lastError w
                    (attempt:=attempt) (maxRetries:=maxRetries)
                    ltac:(lia) Hfn) as (e' & ->);
        exact (Hone _ _ _ _ Hfn).
  - exists 0%nat; split; [lia |].
    rewrite (retryLoop_rethrow fn initialDelay lastError w
               (attempt:=attempt) (maxRetries:=maxRetries)
               ltac:(lia) Hfn ltac:(right; lia)).
    exact (Hone _ _ _ _ Hfn).
  - destruct (isRetryable (message e)) eqn:Hre.
    + rewrite (retryLoop_retry fn initialDelay lastError w
                 (attempt:=attempt) (maxRetries:=maxRetries)
                 ltac:(lia) Hfn Hre).
      destruct (IH (attempt + 1) (ThrownError e) w1 ltac:(lia)) as (k & Hk & Ht).
      destruct (retryLoop fn maxRetries initialDelay (attempt + 1) (ThrownError e) w1)
        as [[r w2] t2].
      cbn in Ht. exists (S k). split; [lia |]. cbn.
      rewrite executorEvents_invoke, executorEvents_app, (quiet_trace Hquiet Hfn).
      cbn [app]. now rewrite executorEvents_log, executorEvents_sleep, Ht.
    + exists 0%nat; split; [lia |].
      rewrite (retryLoop_rethrow fn initialDelay lastError w
                 (attempt:=attempt) (maxRetries:=maxRetries)
                 ltac:(lia) Hfn ltac:(now left)).
      exact (Hone _ _ _ _ Hfn).
Qed.

End RetryRuns.

(* ===================================================================== *)
(** ** Properties of retryWithBackoff *)
(* ===================================================================== *)

Lemma retryWithBackoff_negative {W A} (fn : M W A) maxRetries initialDelay w :
  maxRetries < 0 ->
  retryWithBackoff fn maxRetries initialDelay w = (Throw ThrownUndefined, w, []).
Proof. intro H. unfold retryWithBackoff. now apply retryLoop_exit. Qed.

Lemma retryWithBackoff_schedule {W A} (fn : M W A) maxRetries initialDelay w :
  Quiet fn -> 0 <= maxRetries ->
  exists k, Z.of_nat k <= maxRetries /\
    executorEvents (traceOf (retryWithBackoff fn maxRetries initialDelay w))
    = schedule initialDelay 0 k.
Proof.
  intros Hq HR. unfold retryWithBackoff.
  destruct (@retryLoop_schedule W A fn maxRetries initialDelay Hq
              (Z.to_nat maxRetries) 0 ThrownUndefined w ltac:(lia))
    as (k & Hk & Ht).
  exists k. split; [lia | exact Ht].
Qed.

(** C2. For every maxRetries R >= 0, an operation that fails on each
    invocation with a transient error is invoked exactly R + 1 times by
    retryWithBackoff, which then throws the error of the last invocation;
    with R = 0 there is one invocation and no timer. *)
Theorem transient_failure_exhausts_retries {W A} (fn : M W A) (R d : Z) (w : W) :
  0 <= R -> AlwaysTransient fn -> Quiet fn ->
  let r := retryWithBackoff fn R d w in
  invocations (traceOf r) = Z.to_nat (R + 1) /\
  (exists e, outcomeOf r = Throw (ThrownError e) /\
             outcomeOf (fn (worldAfter fn (Z.to_nat R) w)) = Throw (ThrownError e)) /\
  worldOf r = worldAfter fn (Z.to_nat (R + 1)) w /\
  executorEvents (traceOf r) = schedule d 0 (Z.to_nat R) /\
  (R = 0 -> executorEvents (traceOf r) = [EvInvoke]).
Proof.
  intros HR Hfail Hquiet r.
  destruct (@retryLoop_exhausts W A fn R d Hfail Hquiet
              (Z.to_nat R) 0 ThrownUndefined w ltac:(lia))
    as (Ho & Hw & Ht).
  fold (retryWithBackoff fn R d) in Ho, Hw, Ht. fold r in Ho, Hw, Ht.
  replace (Z.to_nat (R + 1)) with (S (Z.to_nat R)) by lia.
  repeat split.
  - now rewrite <- invocations_executorEvents, Ht, invocations_schedule.
  - destruct (Hfail (worldAfter fn (Z.to_nat R) w)) as (e & He & _).
    exists e. split; [now rewrite Ho | exact He].
  - exact Hw.
  - exact Ht.
  - intros ->. exact Ht.
Qed.

Lemma transient_failure_exhausts_retries_witness :
  AlwaysTransient (alwaysFails "Network unreachable") /\
  Quiet (alwaysFails "Network unreachable") /\
  let r := retryWithBackoff (alwaysFails "Network unreachable") 3 1000 0%nat in
  invocations (traceOf r) = 4%nat /\
  outcomeOf r = Throw (ThrownError (newError "Network unreachable")) /\
  worldOf r = 4%nat.
Proof.
  assert (Hfail : AlwaysTransient (alwaysFails "Network unreachable")).
  { intro w. eexists. split; reflexivity. }
  assert (Hquiet : Quiet (alwaysFails "Network unreachable")).
  { intro w. reflexivity. }
  split; [exact Hfail | split; [exact Hquiet |]].
  pose proof (@transient_failure_exhausts_retries nat unit
                (alwaysFails "Network unreachable") 3 1000 0%nat
                ltac:(lia) Hfail Hquiet) as (Hn & (e & He & _) & Hw & _).
  cbv zeta. split; [exact Hn | split; [reflexivity | exact Hw]].
Defined.

(** C3. For every maxRetries R >= 0, when the operation fails with an error
    whose message is not transient, retryWithBackoff throws that very error
    after this one invocation: no console line, no timer, no second call.
    The same holds at any iteration of the loop, however many retries
    remain. *)
Theorem non_transient_error_is_not_retried {W A} (fn : M W A) (R d : Z)
    (w w1 : W) (e : JsError) (t1 : list Event) :
  0 <= R ->
  fn w = (Throw (ThrownError e), w1, t1) ->
  isRetryable (message e) = false ->
  retryWithBackoff fn R d w = (Throw (ThrownError e), w1, EvInvoke :: t1) /\
  (executorEvents t1 = [] ->
   invocations (traceOf (retryWithBackoff fn R d w)) = 1%nat /\
   delays (traceOf (retryWithBackoff fn R d w)) = []) /\
  (forall attempt lastError, attempt <= R ->
     retryLoop fn R d attempt lastError w
     = (Throw (ThrownError e), w1, EvInvoke :: t1)).
Proof.
  intros HR Hfn Hre.
  assert (Hany : forall attempt lastError, attempt <= R ->
            retryLoop fn R d attempt lastError w
            = (Throw (ThrownError e), w1, EvInvoke :: t1)).
  { intros attempt lastError Hle.
    apply retryLoop_rethrow; [exact Hle | exact Hfn | now left]. }
  assert (Hrun : retryWithBackoff fn R d w
                 = (Throw (ThrownError e), w1, EvInvoke :: t1)).
  { unfold retryWithBackoff.
    apply retryLoop_rethrow; [exact HR | exact Hfn | now left]. }
  split; [exact Hrun |]. split; [| exact Hany].
  intro Hq. rewrite Hrun. cbn [traceOf snd].
  rewrite <- invocations_executorEvents, <- delays_executorEvents.
  now rewrite executorEvents_invoke, Hq.
Qed.

Lemma non_transient_error_is_not_retried_witness :
  isRetryable "DA upload failed: 403" = false /\
  retryWithBackoff (alwaysFails "DA upload failed: 403") 3 1000 0%nat
  = (Throw (ThrownError (newError "DA upload failed: 403")), 1%nat, [EvInvoke]).
Proof.
  split; [reflexivity |].
  exact (proj1 (@non_transient_error_is_not_retried nat unit
                  (alwaysFails "DA upload failed: 403") 3 1000 0%nat 1%nat
                  (newError "DA upload failed: 403") []
                  ltac:(lia) eq_refl eq_refl)).
Defined.

(** C4, as the code has it, for arguments in the range where the loop's
    arithmetic is exact. Invocation 0 is preceded by no timer; every later
    invocation i + 1 is preceded by exactly the timer set after failed
    attempt i (0-indexed), of initialDelay * 2^i milliseconds, and there is
    no other timer; every delay is a safe integer; successive delays
    increase strictly when initialDelay > 0; no delay is negative when
    initialDelay >= 0; and the index of an attempt never exceeds
    maxRetries. *)
Theorem backoff_delay_follows_attempt {W A} (fn : M W A) (R d : Z) (w : W) :
  Quiet fn ->
  inSafeRange R d ->
  let t := traceOf (retryWithBackoff fn R d w) in
  delayBefore 0 t None = None /\
  (forall i, (S i < invocations t)%nat ->
     delayBefore (S i) t None = Some (d * 2 ^ Z.of_nat i)) /\
  (forall i ms, delayBefore (S i) t None = Some ms ->
     ms = d * 2 ^ Z.of_nat i /\ (S i < invocations t)%nat) /\
  delays t = map (fun i => d * 2 ^ Z.of_nat i) (seq 0 (invocations t - 1)) /\
  (forall ms, In ms (delays t) -> Z.abs ms <= MAX_SAFE_INTEGER) /\
  (0 < d -> forall i j a b, (i < j)%nat ->
     delayBefore i t None = Some a -> delayBefore j t None = Some b -> a < b) /\
  (0 <= d -> forall ms, In ms (delays t) -> 0 <= ms) /\
  (forall i, (i < invocations t)%nat -> Z.of_nat i <= R).
Proof.
  intros Hq Hrange t.
  destruct (Z_lt_le_dec R 0) as [Hneg | Hpos].
  - subst t. rewrite retryWithBackoff_negative by exact Hneg. cbn.
    repeat split; try discriminate; try contradiction; intros; lia.
  - destruct (@retryWithBackoff_schedule W A fn R d w Hq Hpos) as (k & Hk & Ht).
    fold t in Ht.
    assert (Hinv : invocations t = S k).
    { now rewrite <- invocations_executorEvents, Ht, invocations_schedule. }
    assert (Hdelays : delays t = map (fun i => d * 2 ^ Z.of_nat i) (seq 0 k)).
    { rewrite <- delays_executorEvents, Ht, delays_schedule.
      apply map_ext. intro i. now rewrite Z.add_0_l. }
    assert (Hspec : forall i, delayBefore (S i) t None =
                      if (i <? k)%nat then Some (d * 2 ^ Z.of_nat i) else None).
    { intro i. rewrite <- delayBefore_executorEvents, Ht, delayBefore_schedule_spec.
      now rewrite Z.add_0_l. }
    assert (Hafter : forall i ms, delayBefore (S i) t None = Some ms ->
                       ms = d * 2 ^ Z.of_nat i /\ (S i < invocations t)%nat).
    { intros i ms H. rewrite Hspec in H.
      destruct (Nat.ltb_spec i k) as [Hlt | Hge]; [| discriminate].
      injection H as <-. split; [reflexivity | lia]. }
    assert (Hfirst : delayBefore 0 t None = None).
    { rewrite <- delayBefore_executorEvents, Ht. now destruct k. }
    split; [exact Hfirst |].
    split.
    { intros i Hi. rewrite Hspec.
      destruct (Nat.ltb_spec i k) as [Hlt | Hge]; [reflexivity | lia]. }
    split; [exact Hafter |].
    split; [rewrite Hdelays, Hinv; do 2 f_equal; lia |].
    split.
    { intros ms Hin. rewrite Hdelays in Hin.
      apply in_map_iff in Hin. destruct Hin as (i & <- & Hi).
      apply in_seq in Hi.
      apply (@safe_delay R d (Z.of_nat i) Hrange). lia. }
    repeat split.
    + intros Hd i j a b Hij Ha Hb.
      destruct i as [| i]; [rewrite Hfirst in Ha; discriminate |].
      destruct j as [| j]; [lia |].
      apply Hafter in Ha, Hb. destruct Ha as [-> _], Hb as [-> _].
      apply Z.mul_lt_mono_pos_l; [exact Hd |].
      apply Z.pow_lt_mono_r; lia.
    + intros Hd ms Hin. rewrite Hdelays in Hin.
      apply in_map_iff in Hin. destruct Hin as (i & <- & _).
      apply Z.mul_nonneg_nonneg; [exact Hd |].
      apply Z.pow_nonneg. lia.
    + intros i Hi. rewrite Hinv in Hi. lia.
Qed.

Lemma backoff_delay_follows_attempt_witness :
  Quiet (alwaysFails "Network unreachable") /\
  inSafeRange 3 1000 /\
  let t := traceOf (retryWithBackoff (alwaysFails "Network unreachable") 3 1000 0%nat) in
  delayBefore 0 t None = None /\
  delayBefore 1 t None = Some 1000 /\
  delayBefore 2 t None = Some 2000 /\
  delayBefore 3 t None = Some 4000 /\
  delays t = [1000; 2000; 4000] /\
  (forall ms, In ms (delays t) -> 0 <= ms) /\
  (forall i, (i < invocations t)%nat -> Z.of_nat i <= 3).
Proof.
  assert (Hquiet : Quiet (alwaysFails "Network unreachable")).
  { intro w. reflexivity. }
  assert (Hrange : inSafeRange 3 1000).
  { split; vm_compute; discriminate. }
  split; [exact Hquiet |]. split; [exact Hrange |].
  pose proof (@backoff_delay_follows_attempt nat unit
                (alwaysFails "Network unreachable") 3 1000 0%nat Hquiet Hrange)
    as (H0 & H1 & _ & Hall & _ & _ & Hnonneg & Hidx).
  cbv zeta.
  split; [exact H0 |].
  split; [exact (H1 0%nat ltac:(vm_compute; lia)) |].
  split; [exact (H1 1%nat ltac:(vm_compute; lia)) |].
  split; [exact (H1 2%nat ltac:(vm_compute; lia)) |].
  split; [exact Hall |].
  split; [apply Hnonneg; lia | exact Hidx].
Defined.

(** C4 as stated fails. With maxRetries = 1 and initialDelay = 1000 the timer
    awaited before attempt 1 lasts 1000 ms, not 1000 * 2^1; there is no timer
    before attempt 0; and with initialDelay = -1000 the computed delay is
    negative. *)
Lemma backoff_delay_before_attempt_counterexample :
  (let t := traceOf (retryWithBackoff (alwaysFails "Network unreachable") 1 1000 0%nat) in
   delayBefore 1 t None = Some 1000 /\ 1000 <> 1000 * 2 ^ 1 /\
   delayBefore 0 t None = None) /\
  (let t := traceOf (retryWithBackoff (alwaysFails "Network unreachable") 1 (-1000) 0%nat) in
   delays t = [-1000] /\ ~ 0 <= -1000).
Proof.
  split; cbv zeta.
  - split; [reflexivity |]. split; [lia | reflexivity].
  - split; [reflexivity | lia].
Qed.

(* ===================================================================== *)
(** ** Facts on strings *)
(* ===================================================================== *)

Lemma append_assoc (a b c : string) : (a ++ b) ++ c = a ++ (b ++ c).
Proof. induction a as [| x a IH]; simpl; [reflexivity | now rewrite IH]. Qed.

Lemma append_nil_r (s : string) : s ++ EmptyString = s.
Proof. induction s as [| x s IH]; simpl; [reflexivity | now rewrite IH]. Qed.

Lemma endsWith_self s : endsWith s s = true.
Proof. destruct s; cbn [endsWith]; rewrite String.eqb_refl; reflexivity. Qed.

Lemma endsWith_cons c s suf :
  endsWith s suf = true -> endsWith (String c s) suf = true.
Proof. intro H. simpl. rewrite H. apply orb_true_r. Qed.

Lemma endsWith_app_l x s suf :
  endsWith s suf = true -> endsWith (x ++ s) suf = true.
Proof.
  intro H. induction x as [| c x IH]; [exact H |].
  simpl append. now apply endsWith_cons.
Qed.

Lemma endsWith_app x suf : endsWith (x ++ suf) suf = true.
Proof. apply endsWith_app_l, endsWith_self. Qed.

Lemma endsWith_slice1 s suf :
  endsWith s suf = false -> endsWith (slice1 s) suf = false.
Proof.
  destruct s as [| c s]; [trivial |].
  simpl. intro H. apply orb_false_iff in H. tauto.
Qed.

Lemma truthyString_nonempty s : s <> EmptyString -> truthyString s = true.
Proof.
  intro H. unfold truthyString. apply negb_true_iff, String.eqb_neq. exact H.
Qed.

Lemma cleanLeadingSlash_app p ext :
  cleanLeadingSlash (p ++ "." ++ ext) = cleanLeadingSlash p ++ "." ++ ext.
Proof.
  destruct p as [| c p]; [reflexivity |].
  unfold cleanLeadingSlash. cbn [append startsWith slice1].
  destruct (Ascii.eqb "/" c); reflexivity.
Qed.

(* ===================================================================== *)
(** ** Properties of formatURL *)
(* ===================================================================== *)

Lemma formatURL_eq base api org repo path ext :
  ext <> EmptyString ->
  formatURL base api org repo path ext =
  base ++ "/" ++ api ++ "/" ++ org ++ "/" ++ repo ++ "/" ++
  (if endsWith (cleanLeadingSlash path) ("." ++ ext)
   then cleanLeadingSlash path
   else cleanLeadingSlash path ++ "." ++ ext).
Proof.
  intro Hext. unfold formatURL. rewrite (truthyString_nonempty Hext).
  fold (cleanLeadingSlash path).
  destruct (endsWith (cleanLeadingSlash path) ("." ++ ext)); reflexivity.
Qed.

(** C9. For a non-empty ext, the URL formatURL builds ends in "." ++ ext;
    one leading "/" of path is dropped and no more (what follows it is kept
    whole, a path without leading "/" is kept whole); and a path gives the
    same URL with or without the suffix "." ++ ext. *)
Theorem formatURL_extension_idempotent (base api org repo path ext : string) :
  ext <> EmptyString ->
  let prefix := base ++ "/" ++ api ++ "/" ++ org ++ "/" ++ repo ++ "/" in
  endsWith (formatURL base api org repo path ext) ("." ++ ext) = true /\
  (forall q, path = String "/" q ->
     exists rest, (rest = EmptyString \/ rest = "." ++ ext) /\
       formatURL base api org repo path ext = prefix ++ q ++ rest) /\
  (startsWith path "/" = false ->
     exists rest, (rest = EmptyString \/ rest = "." ++ ext) /\
       formatURL base api org repo path ext = prefix ++ path ++ rest) /\
  (endsWith path ("." ++ ext) = false ->
     formatURL base api org repo path ext
     = formatURL base api org repo (path ++ "." ++ ext) ext).
Proof.
  intros Hext prefix.
  assert (Hshape : forall p, exists rest,
            (rest = EmptyString \/ rest = "." ++ ext) /\
            formatURL base api org repo p ext
            = prefix ++ cleanLeadingSlash p ++ rest).
  { intro p. rewrite (formatURL_eq _ _ _ _ _ Hext). subst prefix.
    destruct (endsWith (cleanLeadingSlash p) ("." ++ ext)).
    - exists EmptyString. split; [now left |].
      now rewrite !append_assoc, append_nil_r.
    - exists ("." ++ ext). split; [now right |].
      now rewrite !append_assoc. }
  repeat split.
  - rewrite (formatURL_eq _ _ _ _ _ Hext).
    do 8 apply endsWith_app_l.
    destruct (endsWith (cleanLeadingSlash path) ("." ++ ext)) eqn:E;
      [exact E | apply endsWith_app].
  - intros q ->. exact (Hshape (String "/" q)).
  - intro Hno. destruct (Hshape path) as (rest & Hrest & Hurl).
    exists rest. split; [exact Hrest |].
    unfold cleanLeadingSlash in Hurl. now rewrite Hno in Hurl.
  - intro Hno.
    rewrite !(formatURL_eq _ _ _ _ _ Hext), cleanLeadingSlash_app.
    rewrite endsWith_app.
    assert (Hc : endsWith (cleanLeadingSlash path) ("." ++ ext) = false).
    { unfold cleanLeadingSlash.
      destruct (startsWith path "/"); [now apply endsWith_slice1 | exact Hno]. }
    now rewrite Hc.
Qed.

Lemma formatURL_extension_idempotent_witness :
  "html" <> EmptyString /\
  formatURL "https://admin.da.live" "source" "acme" "site" "//docs/index" "html"
  = "https://admin.da.live/source/acme/site//docs/index.html" /\
  formatURL "https://admin.da.live" "source" "acme" "site" "//docs/index" "html"
  = formatURL "https://admin.da.live" "source" "acme" "site"
      ("//docs/index" ++ "." ++ "html") "html".
Proof.
  assert (Hext : "html" <> EmptyString) by discriminate.
  split; [exact Hext |]. split; [reflexivity |].
  apply (formatURL_extension_idempotent "https://admin.da.live" "source" "acme"
           "site" "//docs/index" Hext).
  reflexivity.
Defined.

(* ===================================================================== *)
(** ** Properties of parseResponseBody and daAdminRequest *)
(* ===================================================================== *)

Section AdminRequest.

Context {W : Type}.
Variable transport : Request -> W -> (JsError + Response) * W.
Variable token : option string.
Variable userAgent : string.
Variable parse : string -> option Json.
Variable stringify : Json -> Z -> string.

(** parseResponseBody touches nothing outside the response. *)
Lemma parseResponseBody_run response (w : W) :
  parseResponseBody parse response w =
  (let asText :=
     match text response with
     | inr body => Return (JText body)
     | inl e => Throw (ThrownError e)
     end in
   match contentTypeHeader response with
   | Some contentType =>
       if includes contentType "application/json"
       then Return (match responseJson parse response with
                    | Some v => v
                    | None => JObject []
                    end)
       else asText
   | None => asText
   end, w, []).
Proof.
  unfold parseResponseBody, responseText, bind, ret, throw. cbv zeta.
  destruct (contentTypeHeader response) as [contentType |];
    [destruct (includes contentType "application/json") |];
    try (destruct (responseJson parse response); reflexivity);
    destruct (text response); reflexivity.
Qed.

(** daAdminRequest, case by case on what the transport and the body do. *)
Lemma daAdminRequest_run url options w :
  daAdminRequest transport token userAgent parse stringify url options w =
  let req := daAdminInit token userAgent url options in
  match transport req w with
  | (inl e, w1) => (Throw (ThrownError e), w1, [EvFetch req])
  | (inr response, w1) =>
      match outcomeOf (parseResponseBody parse response w1) with
      | Throw t => (Throw t, w1, [EvFetch req])
      | Return responseBody =>
          if ok response
          then (Return responseBody, w1, [EvFetch req])
          else (Throw (ThrownError
                  (newError (numberToString (status response) ++ ": " ++
                             errorMessageOf stringify responseBody))),
                w1, [EvFetch req])
      end
  end.
Proof.
  unfold daAdminRequest, bind, fetch. cbv zeta.
  destruct (transport (daAdminInit token userAgent url options) w)
    as [[e | response] w1]; [reflexivity |].
  rewrite parseResponseBody_run. cbv zeta. cbn [outcomeOf fst].
  match goal with
  | |- context [match ?o with Return _ => _ | Throw _ => _ end] =>
      destruct o as [responseBody | t] eqn:Ho
  end; [| reflexivity].
  destruct (ok response); reflexivity.
Qed.

(** daAdminRequest sends its one request whatever happens next. *)
Lemma daAdminRequest_fetches url options w :
  fetches (traceOf (daAdminRequest transport token userAgent parse stringify
                      url options w))
  = [daAdminInit token userAgent url options].
Proof.
  rewrite daAdminRequest_run. cbv zeta.
  destruct (transport _ w) as [[e | response] w1]; [reflexivity |].
  destruct (outcomeOf (parseResponseBody parse response w1)); [| reflexivity].
  destruct (ok response); reflexivity.
Qed.

End AdminRequest.

(** C8, as the code has it. On a response the transport delivered: with a
    content-type that includes application/json, parseResponseBody gives the
    value of a body that is valid JSON, and silently the empty object for a
    body that is empty, is not valid JSON or cannot be read; with any other
    content-type, or none, it gives the body as text when reading it
    succeeds and throws the read error when it fails, and daAdminRequest
    throws that very error, for an ok response too; whenever the body was
    parsed, daAdminRequest throws exactly when the response is not ok, the
    message being the status code, a colon and the parsed body, and returns
    the parsed body otherwise. *)
Theorem daAdminRequest_parsing {W}
    (transport : Request -> W -> (JsError + Response) * W)
    token userAgent parse stringify url options (w w1 : W) (response : Response) :
  parse EmptyString = None ->
  transport (daAdminInit token userAgent url options) w = (inr response, w1) ->
  let run := daAdminRequest transport token userAgent parse stringify url options w in
  let parsing := outcomeOf (parseResponseBody parse response w1) in
  (forall contentType,
     contentTypeHeader response = Some contentType ->
     includes contentType "application/json" = true ->
     (forall body v, text response = inr body -> parse body = Some v ->
        parsing = Return v) /\
     (((exists e, text response = inl e) \/
       (exists body, text response = inr body /\
                     (parse body = None \/ body = EmptyString))) ->
      parsing = Return (JObject []))) /\
  ((contentTypeHeader response = None \/
    exists contentType, contentTypeHeader response = Some contentType /\
                        includes contentType "application/json" = false) ->
   (forall body, text response = inr body -> parsing = Return (JText body)) /\
   (forall e, text response = inl e ->
      parsing = Throw (ThrownError e) /\ outcomeOf run = Throw (ThrownError e))) /\
  (forall parsed, parsing = Return parsed ->
     ((exists t, outcomeOf run = Throw t) <-> ok response = false) /\
     (ok response = false ->
      outcomeOf run =
      Throw (ThrownError (newError
        (numberToString (status response) ++ ": " ++
         match parsed with
         | JText s => s
         | other => stringify other 0
         end)))) /\
     (ok response = true -> outcomeOf run = Return parsed)).
Proof.
  intros Hempty Hfetch run parsing.
  assert (Hrun : run =
            match parsing with
            | Throw t =>
                (Throw t, w1, [EvFetch (daAdminInit token userAgent url options)])
            | Return parsed =>
                if ok response
                then (Return parsed, w1,
                      [EvFetch (daAdminInit token userAgent url options)])
                else (Throw (ThrownError
                        (newError (numberToString (status response) ++ ": " ++
                                   errorMessageOf stringify parsed))),
                      w1, [EvFetch (daAdminInit token userAgent url options)])
            end).
  { subst run. rewrite daAdminRequest_run. cbv zeta. now rewrite Hfetch. }
  assert (Hparsing : parsing =
            let asText :=
              match text response with
              | inr body => Return (JText body)
              | inl e => Throw (ThrownError e)
              end in
            match contentTypeHeader response with
            | Some contentType =>
                if includes contentType "application/json"
                then Return (match responseJson parse response with
                             | Some v => v
                             | None => JObject []
                             end)
                else asText
            | None => asText
            end).
  { subst parsing. now rewrite parseResponseBody_run. }
  cbv zeta in Hparsing.
  split; [| split].
  - intros contentType Hct Hinc. rewrite Hparsing, Hct, Hinc.
    unfold responseJson. split.
    + intros body v Hbody Hv. now rewrite Hbody, Hv.
    + intros [(e & He) | (body & Hbody & [Hbad | ->])].
      * now rewrite He.
      * now rewrite Hbody, Hbad.
      * now rewrite Hbody, Hempty.
  - intro Hother.
    assert (Htext : parsing =
              match text response with
              | inr body => Return (JText body)
              | inl e => Throw (ThrownError e)
              end).
    { rewrite Hparsing.
      destruct Hother as [-> | (contentType & -> & ->)]; reflexivity. }
    split.
    + intros body Hbody. now rewrite Htext, Hbody.
    + intros e He. split; [now rewrite Htext, He |].
      rewrite Hrun, Htext, He. reflexivity.
  - intros parsed Hparsed. rewrite Hparsed in Hrun. rewrite Hrun.
    destruct (ok response); cbn; repeat split; try discriminate; try reflexivity.
    + intros (t & Ht). discriminate Ht.
    + intros _. eexists. reflexivity.
Qed.

Lemma daAdminRequest_parsing_witness :
  let response :=
    mkResponse false 502 (Some "application/json; charset=utf-8") (inr "<html>") in
  sampleParse EmptyString = None /\
  scriptedTransport (daAdminInit None "mcp" "https://admin.da.live/list/acme" noOptions)
    [inr response] = (inr response, []) /\
  outcomeOf (@parseResponseBody Script sampleParse response []) = Return (JObject []) /\
  outcomeOf (daAdminRequest scriptedTransport None "mcp" sampleParse sampleStringify
               "https://admin.da.live/list/acme" noOptions [inr response])
  = Throw (ThrownError (newError "502: {}")).
Proof.
  intro response.
  assert (H1 : sampleParse EmptyString = None) by reflexivity.
  assert (H2 : scriptedTransport
                 (daAdminInit None "mcp" "https://admin.da.live/list/acme" noOptions)
                 [inr response] = (inr response, [])) by reflexivity.
  split; [exact H1 |]. split; [exact H2 |].
  pose proof (@daAdminRequest_parsing Script scriptedTransport None "mcp"
                sampleParse sampleStringify "https://admin.da.live/list/acme"
                noOptions [inr response] [] response H1 H2)
    as (Hjson & _ & Hparsed).
  assert (Hobj : outcomeOf (@parseResponseBody Script sampleParse response [])
                 = Return (JObject [])).
  { apply (Hjson "application/json; charset=utf-8" eq_refl eq_refl).
    right. exists "<html>". split; [reflexivity | left; reflexivity]. }
  split; [exact Hobj |].
  exact (proj1 (proj2 (Hparsed (JObject []) Hobj)) eq_refl).
Defined.

(** C8 as stated fails. A 200 response whose content-type is text/html and
    whose body cannot be read makes daAdminRequest throw, although the
    response is ok; and a 500 response of that kind makes it throw the read
    error, not a message made of the status code and the body. *)
Lemma daAdminRequest_throws_on_ok_response_counterexample :
  let cut := mkError "TypeError" "terminated" in
  let run response :=
    daAdminRequest scriptedTransport None "mcp" sampleParse sampleStringify
      "https://admin.da.live/source/acme/site/index.html" noOptions
      [inr response] in
  ok (mkResponse true 200 (Some "text/html") (inl cut)) = true /\
  outcomeOf (run (mkResponse true 200 (Some "text/html") (inl cut)))
  = Throw (ThrownError cut) /\
  outcomeOf (run (mkResponse false 500 (Some "text/html") (inl cut)))
  = Throw (ThrownError cut).
Proof. cbv zeta. repeat split. Qed.

(* ===================================================================== *)
(** ** Properties of createSource *)
(* ===================================================================== *)



(* ===================================================================== *)
(** ** Content-type resolution *)
(* ===================================================================== *)

Lemma lowerChar_idempotent c : lowerChar (lowerChar c) = lowerChar c.
Proof. destruct c as [[] [] [] [] [] [] [] []]; reflexivity. Qed.

Lemma toLowerCase_idempotent s : toLowerCase (toLowerCase s) = toLowerCase s.
Proof.
  induction s as [| c s IH]; simpl; [reflexivity |].
  now rewrite lowerChar_idempotent, IH.
Qed.

(** A lower-cased key names at most two members of [Object.prototype]. *)
Lemma inherited_lowercase_member s :
  existsb (String.eqb (toLowerCase s)) objectPrototypeMembers = true ->
  toLowerCase s = "constructor" \/ toLowerCase s = "__proto__".
Proof.
  intro H. apply existsb_exists in H. destruct H as (m & Hin & Heq).
  apply String.eqb_eq in Heq.
  pose proof (toLowerCase_idempotent s) as Hidem. rewrite Heq in Hidem.
  simpl in Hin.
  repeat (destruct Hin as [<- | Hin];
          [first [now left | now right | discriminate Hidem] |]).
  contradiction.
Qed.

(** Extensions of the table resolve to the type the table gives. *)
Lemma resolveMimeType_table localFilePath mime :
  ownProperty mimeTypes (toLowerCase (pop (split "." localFilePath))) = Some mime ->
  resolveMimeType None localFilePath = JsString mime.
Proof.
  intro H. unfold resolveMimeType, getProperty. cbn [truthy negb].
  rewrite H. unfold orElse.
  assert (Ht : truthy (JsString mime) = true).
  { revert H. generalize (toLowerCase (pop (split "." localFilePath))).
    intro k. unfold mimeTypes, ownProperty.
    repeat (destruct (String.eqb _ k); [intros [= <-]; reflexivity |]).
    discriminate. }
  now rewrite Ht.
Qed.

(** Every other extension resolves to the default, except the two that
    name an inherited member. *)
Lemma resolveMimeType_default localFilePath :
  let ext := toLowerCase (pop (split "." localFilePath)) in
  ownProperty mimeTypes ext = None ->
  ext <> "constructor" -> ext <> "__proto__" ->
  resolveMimeType None localFilePath = JsString "application/octet-stream".
Proof.
  intros ext Hown Hc Hp. unfold resolveMimeType, getProperty. cbn [truthy negb].
  fold ext. rewrite Hown.
  destruct (existsb (String.eqb ext) objectPrototypeMembers) eqn:Hin.
  - apply inherited_lowercase_member in Hin. fold ext in Hin. tauto.
  - reflexivity.
Qed.

(** An explicit, non-empty contentType is used as it is. *)
Lemma resolveMimeType_explicit c localFilePath :
  c <> EmptyString -> resolveMimeType (Some c) localFilePath = JsString c.
Proof.
  intro H. unfold resolveMimeType. cbn [truthy].
  apply String.eqb_neq in H. now rewrite H.
Qed.

Example resolveMimeType_examples :
  map (resolveMimeType None)
    ["photo.png"; "photo.PNG"; "a.jpg"; "a.jpeg"; "a.gif"; "a.webp"; "a.svg";
     "a.pdf"; "a.mp4"; "a.webm"; "archive.tar.gz"; "README"; "x.toString"]
  = map JsString
    ["image/png"; "image/png"; "image/jpeg"; "image/jpeg"; "image/gif";
     "image/webp"; "image/svg+xml"; "application/pdf"; "video/mp4";
     "video/webm"; "application/octet-stream"; "application/octet-stream";
     "application/octet-stream"].
Proof. reflexivity. Qed.

(** C7, at the input where the code departs from it. For the file
    logo.constructor and no contentType, the extension is not in the table,
    yet the lookup [mimeTypes[ext]] finds the member [constructor] the object
    literal inherits, which is truthy: the resolved content type is that
    member, not application/octet-stream, and the result of a run in which
    every request succeeds carries it in its contentType field. *)
Theorem resolveMimeType_inherited_member :
  ownProperty mimeTypes (toLowerCase (pop (split "." "logo.constructor"))) = None /\
  resolveMimeType None "logo.constructor" = JsBuiltin "constructor" /\
  resolveMimeType None "logo.constructor" <> JsString "application/octet-stream" /\
  outcomeOf (uploadAsset scriptedTransport (fixedFile "bytes") (Some "token")
               "acme" "site" "assets/logo" "logo.constructor" None [])
  = Return (mkUploadResult true "assets/logo"
              "https://main--site--acme.aem.page/assets/logo"
              "https://main--site--acme.aem.live/assets/logo"
              (JsBuiltin "constructor") 5).
Proof.
  split; [reflexivity |]. split; [reflexivity |].
  split; [discriminate |]. vm_compute. reflexivity.
Qed.

(* ===================================================================== *)
(** ** The upload workflow, step by step *)
(* ===================================================================== *)

Arguments retryWithBackoff : simpl never.

Section Workflow.

Context {W : Type}.
Variable transport : Request -> W -> (JsError + Response) * W.
Variable fileSystem : string -> W -> (JsError + string) * W.
Variable token : option string.
Variables org repo path localFilePath : string.
Variable contentType : option string.

Lemma uploadOperation_run bytes mimeType w :
  uploadOperation transport token (uploadUrlOf org repo path) path bytes mimeType w =
  let req := uploadRequestOf token org repo path bytes mimeType in
  match transport req w with
  | (inl e, w1) => (Throw (ThrownError e), w1, [EvFetch req])
  | (inr r, w1) =>
      if ok r
      then (Return tt, w1, [EvFetch req; EvLog (LogUploaded path)])
      else match text r with
           | inr errorText =>
               (Throw (ThrownError
                  (newError ("DA upload failed: " ++ numberToString (status r)))),
                w1, [EvFetch req; EvLog (LogUploadFailed (status r) errorText)])
           | inl e => (Throw (ThrownError e), w1, [EvFetch req])
           end
  end.
Proof.
  unfold uploadOperation, bind, fetch, responseText. cbv zeta.
  fold (uploadRequestOf token org repo path bytes mimeType).
  destruct (transport (uploadRequestOf token org repo path bytes mimeType) w)
    as [[e | r] w1]; [reflexivity |].
  destruct (ok r); [reflexivity |].
  destruct (text r); reflexivity.
Qed.

Lemma previewOperation_run url w :
  previewOperation transport token url w =
  let req := triggerRequestOf token url in
  match transport req w with
  | (inl e, w1) => (Throw (ThrownError e), w1, [EvFetch req])
  | (inr r, w1) =>
      (Return tt, w1,
       [EvFetch req;
        EvLog (if ok r then LogPreviewTriggered else LogPreviewFailed (status r))])
  end.
Proof.
  unfold previewOperation, bind, fetch. cbv zeta.
  fold (triggerRequestOf token url).
  destruct (transport (triggerRequestOf token url) w) as [[e | r] w1];
    [reflexivity |].
  destruct (ok r); reflexivity.
Qed.

Lemma publishOperation_run url w :
  publishOperation transport token url w =
  let req := triggerRequestOf token url in
  match transport req w with
  | (inl e, w1) => (Throw (ThrownError e), w1, [EvFetch req])
  | (inr r, w1) =>
      (Return tt, w1,
       [EvFetch req;
        EvLog (if ok r then LogPublishTriggered else LogPublishFailed (status r))])
  end.
Proof.
  unfold publishOperation, bind, fetch. cbv zeta.
  fold (triggerRequestOf token url).
  destruct (transport (triggerRequestOf token url) w) as [[e | r] w1];
    [reflexivity |].
  destruct (ok r); reflexivity.
Qed.

(** The try block: steps 1 to 5 in sequence, each failure ending the block. *)
Lemma uploadAssetTry_run w :
  uploadAssetTry transport fileSystem token org repo path localFilePath contentType w =
  match fileSystem localFilePath w with
  | (inl e, w1) =>
      (Throw (ThrownError e), w1,
       [EvLog (LogReadingFile localFilePath); EvReadFile localFilePath])
  | (inr bytes, w1) =>
      let mimeType := resolveMimeType contentType localFilePath in
      let step1 :=
        [EvLog (LogReadingFile localFilePath); EvReadFile localFilePath;
         EvLog (LogFileRead (String.length bytes));
         EvLog (LogUploadingTo (uploadUrlOf org repo path))] in
      match retryWithBackoff
              (uploadOperation transport token (uploadUrlOf org repo path)
                 path bytes mimeType) 3 1000 w1 with
      | (Throw t, w2, t2) => (Throw t, w2, (step1 ++ t2)%list)
      | (Return _, w2, t2) =>
          let step3 := EvLog (LogTriggeringPreview (previewUrlOf org repo path)) in
          match retryWithBackoff
                  (previewOperation transport token (previewUrlOf org repo path))
                  2 500 w2 with
          | (Throw t, w3, t3) =>
              (Throw t, w3, (step1 ++ t2 ++ step3 :: t3)%list)
          | (Return _, w3, t3) =>
              let step4 := EvLog (LogPublishing (publishUrlOf org repo path)) in
              match retryWithBackoff
                      (publishOperation transport token (publishUrlOf org repo path))
                      2 500 w3 with
              | (Throw t, w4, t4) =>
                  (Throw t, w4,
                   (step1 ++ t2 ++ step3 :: t3 ++ EvSleep 1000 :: step4 :: t4)%list)
              | (Return _, w4, t4) =>
                  (Return (uploadResultOf org repo path bytes mimeType), w4,
                   (step1 ++ t2 ++ step3 :: t3 ++ EvSleep 1000 :: step4 :: t4 ++
                    [EvSleep 800;
                     EvLog (LogAvailable
                              ("https://main--" ++ repo ++ "--" ++ org ++
                               ".aem.page/" ++ path))])%list)
              end
          end
      end
  end.
Proof.
  unfold uploadAssetTry, bind, readFileSync, consoleError, sleep, emit, ret.
  cbv zeta.
  fold (uploadUrlOf org repo path) (previewUrlOf org repo path)
       (publishUrlOf org repo path).
  destruct (fileSystem localFilePath w) as [[e | bytes] w1]; [reflexivity |].
  cbv beta iota.
  destruct (retryWithBackoff _ 3 1000 w1) as [[[[] | t] w2] t2]; [| reflexivity].
  destruct (retryWithBackoff _ 2 500 w2) as [[[[] | t] w3] t3]; [| reflexivity].
  destruct (retryWithBackoff _ 2 500 w3) as [[[[] | t] w4] t4]; reflexivity.
Qed.

(** The catch clause always throws, and what it throws for an [Error]. *)
Lemma uploadAssetCatch_run (e : JsError) (w : W) :
  @uploadAssetCatch W UploadResult (ThrownError e) w =
  (Throw (ThrownError (rethrown e)), w,
   [EvLog (LogWorkflowFailed (ThrownError e));
    EvLog (LogErrorDetails (Some (name e)) (Some (message e)))]).
Proof.
  unfold uploadAssetCatch, rethrown, bind, consoleError, emit, errorDetails,
    messageOf, ret, throw.
  destruct (isNetworkFailure (message e)); reflexivity.
Qed.

(** What it throws for a value that is no Error, and that it only logs. *)
Lemma uploadAssetCatch_other (v : NonError) (w : W) :
  exists logs : list Event,
    @uploadAssetCatch W UploadResult (ThrownValue v) w =
    (Throw (ThrownError (catchTypeError v)), w, logs) /\
    Forall (fun ev : Event => exists line, ev = EvLog line) logs.
Proof.
  unfold uploadAssetCatch, bind, consoleError, emit, errorDetails, messageOf,
    ret, throw.
  destruct v as [| | nameProperty]; cbn; eexists; (split; [reflexivity |]);
    repeat constructor; eexists; reflexivity.
Qed.

Lemma uploadAsset_run w :
  uploadAsset transport fileSystem token org repo path localFilePath contentType w =
  match uploadAssetTry transport fileSystem token org repo path localFilePath
          contentType w with
  | (Return result, w1, t1) =>
      (Return result, w1, EvLog (LogUploadingAsset path) :: t1)
  | (Throw error, w1, t1) =>
      let '(r, w2, t2) := @uploadAssetCatch W UploadResult error w1 in
      (r, w2, (EvLog (LogUploadingAsset path) :: t1 ++ t2)%list)
  end.
Proof.
  unfold uploadAsset, bind, tryCatch, consoleError, emit.
  destruct (uploadAssetTry transport fileSystem token org repo path localFilePath
              contentType w) as [[[result | error] w1] t1]; [reflexivity |].
  destruct (uploadAssetCatch error w1) as [[r w2] t2]. reflexivity.
Qed.

End Workflow.

(* ===================================================================== *)
(** ** Messages that carry a status code *)
(* ===================================================================== *)

Lemma includes_head c sub s :
  includes s (String c sub) = true -> occurs c s = true.
Proof.
  induction s as [| b s IH]; cbn [includes startsWith occurs].
  - discriminate.
  - intro H. apply orb_true_iff in H. destruct H as [H | H].
    + apply andb_true_iff in H. destruct H as [H _]. now rewrite H.
    + rewrite (IH H). apply orb_true_r.
Qed.

Lemma occurs_app c a b : occurs c (a ++ b) = occurs c a || occurs c b.
Proof.
  induction a as [| x a IH]; cbn [append occurs]; [reflexivity |].
  now rewrite IH, orb_assoc.
Qed.

Lemma occurs_uint c d :
  occurs c (NilEmpty.string_of_uint d) = true -> occurs c "0123456789" = true.
Proof.
  induction d as [| d IH | d IH | d IH | d IH | d IH | d IH | d IH | d IH | d IH | d IH];
    cbn [NilEmpty.string_of_uint occurs]; [discriminate | ..];
    (intro H; apply orb_true_iff in H; destruct H as [H | H];
     [apply Ascii.eqb_eq in H; subst c; reflexivity | exact (IH H)]).
Qed.

(** A rendered integer is made of digits and at most a minus sign. *)
Lemma occurs_numberToString c n :
  occurs c (numberToString n) = true -> occurs c "-0123456789" = true.
Proof.
  unfold numberToString, NilZero.string_of_int.
  assert (Hu : forall d, occurs c (NilZero.string_of_uint d) = true ->
                         occurs c "0123456789" = true).
  { intros d H. destruct d; try exact (occurs_uint _ _ H).
    cbn [NilZero.string_of_uint occurs] in H.
    apply orb_true_iff in H. destruct H as [H | H]; [| discriminate].
    apply Ascii.eqb_eq in H. subst c. reflexivity. }
  assert (Hext : occurs c "0123456789" = true -> occurs c "-0123456789" = true).
  { intro H. cbn [occurs] in *. rewrite H. apply orb_true_r. }
  destruct (Z.to_int n) as [d | d].
  - intro H. exact (Hext (Hu d H)).
  - cbn [occurs]. intro H. apply orb_true_iff in H. destruct H as [H | H].
    + apply Ascii.eqb_eq in H. subst c. reflexivity.
    + exact (Hext (Hu d H)).
Qed.

Lemma upload_failed_has_no c n :
  occurs c "DA upload failed: -0123456789" = false ->
  forall sub, includes ("DA upload failed: " ++ numberToString n) (String c sub) = false.
Proof.
  intros Hc sub.
  destruct (includes _ (String c sub)) eqn:E; [| reflexivity].
  apply includes_head in E. rewrite occurs_app in E.
  change "DA upload failed: -0123456789"
    with ("DA upload failed: " ++ "-0123456789") in Hc.
  rewrite occurs_app in Hc. apply orb_false_iff in Hc. destruct Hc as [Hc1 Hc2].
  apply orb_true_iff in E. destruct E as [E | E].
  - congruence.
  - apply occurs_numberToString in E. congruence.
Qed.

(** "DA upload failed: <status>" is neither retried nor reported as a
    network failure. *)
Lemma upload_failed_classification n :
  isRetryable ("DA upload failed: " ++ numberToString n) = false /\
  isNetworkFailure ("DA upload failed: " ++ numberToString n) = false.
Proof.
  unfold isRetryable, isNetworkFailure.
  rewrite !upload_failed_has_no by reflexivity. split; reflexivity.
Qed.

(** The condition of the catch clause of uploadAsset is narrower than the
    classification of the executor. *)
Lemma isNetworkFailure_isRetryable msg :
  isNetworkFailure msg = true -> isRetryable msg = true.
Proof.
  unfold isNetworkFailure, isRetryable. intro H.
  apply orb_true_iff in H. destruct H as [H | H].
  - apply orb_true_iff in H. destruct H as [H | H]; rewrite H;
      rewrite ?orb_true_r; reflexivity.
  - rewrite H. rewrite ?orb_true_r. reflexivity.
Qed.

(* ===================================================================== *)
(** ** What a run of the executor can throw and emit *)
(* ===================================================================== *)

Section RetryInvariant.

Context {W A : Type}.
Variable fn : M W A.
Variables maxRetries initialDelay : Z.
Variable P : Event -> Prop.
Hypothesis P_invoke : P EvInvoke.
Hypothesis P_log : forall line, P (EvLog line).
Hypothesis P_sleep : forall ms, P (EvSleep ms).
Hypothesis P_fn : forall w, Forall P (traceOf (fn w)).

(** Inside its bounds the loop never throws [undefined], and every event of
    a run is the executor's own or one of the operation's. *)
Lemma retryLoop_invariant :
  forall (retries : nat) attempt lastError w,
    Z.of_nat retries = maxRetries - attempt ->
    let r := retryLoop fn maxRetries initialDelay attempt lastError w in
    Forall P (traceOf r) /\ forall v, outcomeOf r <> Throw (ThrownValue v).
Proof.
  induction retries as [| n IH]; intros attempt lastError w Hn r; subst r;
    pose proof (P_fn w) as Hfn_trace;
    destruct (fn w) as [[o w1] t1] eqn:Hfn; cbn [traceOf snd] in Hfn_trace;
    destruct o as [a | [| e]].
  1, 4: rewrite (retryLoop_success fn initialDelay lastError w
                   (attempt:=attempt) (maxRetries:=maxRetries) ltac:(lia) Hfn);
        cbn; split; [now constructor | discriminate].
  1, 3: destruct (retryLoop_undefined fn initialDelay lastError w
                    (attempt:=attempt) (maxRetries:=maxRetries)
                    ltac:(lia) Hfn) as (e' & ->);
        cbn; split; [now constructor | discriminate].
  - rewrite (retryLoop_rethrow fn initialDelay lastError w
               (attempt:=attempt) (maxRetries:=maxRetries)
               ltac:(lia) Hfn ltac:(right; lia)).
    cbn; split; [now constructor | discriminate].
  - destruct (isRetryable (message e)) eqn:Hre.
    + rewrite (retryLoop_retry fn initialDelay lastError w
                 (attempt:=attempt) (maxRetries:=maxRetries)
                 ltac:(lia) Hfn Hre).
      specialize (IH (attempt + 1) (ThrownError e) w1 ltac:(lia)).
      cbv zeta in IH.
      destruct (retryLoop fn maxRetries initialDelay (attempt + 1) (ThrownError e) w1)
        as [[r w2] t2].
      cbn in IH |- *. destruct IH as [IHt IHo]. split; [| exact IHo].
      constructor; [exact P_invoke |].
      apply Forall_app. split; [exact Hfn_trace |].
      constructor; [apply P_log |]. constructor; [apply P_sleep | exact IHt].
    + rewrite (retryLoop_rethrow fn initialDelay lastError w
                 (attempt:=attempt) (maxRetries:=maxRetries)
                 ltac:(lia) Hfn ltac:(now left)).
      cbn; split; [now constructor | discriminate].
Qed.

Lemma retryWithBackoff_invariant w :
  0 <= maxRetries ->
  let r := retryWithBackoff fn maxRetries initialDelay w in
  Forall P (traceOf r) /\ forall v, outcomeOf r <> Throw (ThrownValue v).
Proof.
  intro H. unfold retryWithBackoff.
  apply (retryLoop_invariant (Z.to_nat maxRetries)). lia.
Qed.

End RetryInvariant.

Lemma fetches_forall (Q : Request -> Prop) t :
  Forall (fun ev => match ev with EvFetch req => Q req | _ => True end) t ->
  forall req, In req (fetches t) -> Q req.
Proof.
  induction 1 as [| ev t Hev _ IH]; intros req Hin; [contradiction |].
  destruct ev; cbn in Hin; auto.
  destruct Hin as [<- | Hin]; auto.
Qed.

Section UploadStep.

Context {W : Type}.
Variable transport : Request -> W -> (JsError + Response) * W.
Variable token : option string.
Variables org repo path bytes : string.
Variable mimeType : JsValue.

Local Abbreviation op :=
  (uploadOperation transport token (uploadUrlOf org repo path) path bytes mimeType).

Lemma uploadOperation_trace w :
  Forall (fun ev => match ev with
                    | EvFetch req => req = uploadRequestOf token org repo path bytes mimeType
                    | _ => True
                    end) (traceOf (op w)).
Proof.
  rewrite uploadOperation_run. cbv zeta.
  destruct (transport _ w) as [[e | r] w1];
    [| destruct (ok r); [| destruct (text r)]]; cbn;
    repeat constructor.
Qed.

Lemma uploadOperation_quiet : Quiet op.
Proof.
  intro w. rewrite uploadOperation_run. cbv zeta.
  destruct (transport _ w) as [[e | r] w1];
    [| destruct (ok r); [| destruct (text r)]]; reflexivity.
Qed.

(** Every request of step 2 is the upload request. *)
Lemma upload_step_requests w :
  forall req, In req (fetches (traceOf (retryWithBackoff op 3 1000 w))) ->
              req = uploadRequestOf token org repo path bytes mimeType.
Proof.
  apply fetches_forall.
  apply (retryWithBackoff_invariant op (maxRetries:=3) 1000); try exact I.
  - intros; exact I.
  - intros; exact I.
  - apply uploadOperation_trace.
  - lia.
Qed.

Lemma upload_step_never_undefined w v :
  outcomeOf (retryWithBackoff op 3 1000 w) <> Throw (ThrownValue v).
Proof.
  apply (retryWithBackoff_invariant op (maxRetries:=3) 1000 (P:=fun _ => True));
    try (intros; exact I); [| lia].
  intro w'. apply Forall_forall. intros; exact I.
Qed.

End UploadStep.

Lemma retryWithBackoff_never_undefined {W A} (fn : M W A) maxRetries initialDelay w v :
  0 <= maxRetries ->
  outcomeOf (retryWithBackoff fn maxRetries initialDelay w) <> Throw (ThrownValue v).
Proof.
  intro H.
  apply (retryWithBackoff_invariant fn initialDelay (P:=fun _ => True));
    try (intros; exact I); [| exact H].
  intro w'. apply Forall_forall. intros; exact I.
Qed.

(* ===================================================================== *)
(** ** Properties of uploadAsset *)
(* ===================================================================== *)

Section UploadAsset.

Context {W : Type}.
Variable transport : Request -> W -> (JsError + Response) * W.
Variable fileSystem : string -> W -> (JsError + string) * W.
Variable token : option string.
Variables org repo path localFilePath : string.
Variable contentType : option string.

(** The try block throws nothing but Errors. *)
Lemma uploadAssetTry_throws_errors w v :
  outcomeOf (uploadAssetTry transport fileSystem token org repo path
               localFilePath contentType w) <> Throw (ThrownValue v).
Proof.
  rewrite uploadAssetTry_run.
  destruct (fileSystem localFilePath w) as [[e | bytes] w1]; [discriminate |].
  cbv zeta.
  match goal with
  | |- context [retryWithBackoff ?op 3 1000 w1] =>
      pose proof (@retryWithBackoff_never_undefined W unit op 3 1000 w1 v ltac:(lia)) as H2;
      destruct (retryWithBackoff op 3 1000 w1) as [[[[] | t] w2] t2]
  end; [| cbn in *; intros [= ->]; now apply H2].
  match goal with
  | |- context [retryWithBackoff ?op 2 500 w2] =>
      pose proof (@retryWithBackoff_never_undefined W unit op 2 500 w2 v ltac:(lia)) as H3;
      destruct (retryWithBackoff op 2 500 w2) as [[[[] | t] w3] t3]
  end; [| cbn in *; intros [= ->]; now apply H3].
  match goal with
  | |- context [retryWithBackoff ?op 2 500 w3] =>
      pose proof (@retryWithBackoff_never_undefined W unit op 2 500 w3 v ltac:(lia)) as H4;
      destruct (retryWithBackoff op 2 500 w3) as [[[[] | t] w4] t4]
  end; [discriminate | cbn in *; intros [= ->]; now apply H4].
Qed.

(** What uploadAsset gives for each outcome of its try block. *)
Lemma uploadAsset_outcome w :
  outcomeOf (uploadAsset transport fileSystem token org repo path localFilePath
               contentType w) =
  match outcomeOf (uploadAssetTry transport fileSystem token org repo path
                     localFilePath contentType w) with
  | Return result => Return result
  | Throw (ThrownError e) => Throw (ThrownError (rethrown e))
  | Throw (ThrownValue v) => Throw (ThrownError (catchTypeError v))
  end.
Proof.
  rewrite uploadAsset_run.
  destruct (uploadAssetTry transport fileSystem token org repo path localFilePath
              contentType w) as [[[result | [v | e]] w1] t1]; try reflexivity.
  - destruct (uploadAssetCatch_other v w1) as (logs & -> & _). reflexivity.
  - now rewrite uploadAssetCatch_run.
Qed.

End UploadAsset.

(** C5, as the code has it. Whatever error leaves the try block of
    uploadAsset (from the file read or from a run of the executor) reaches
    the caller as a new error: the network diagnostic when its message
    contains "Failed to fetch", "SSL" or "TLS"; otherwise, and so also for the
    errors the executor retries on "Network" or "ECONNRESET" alone, the
    original message behind the prefix "Failed to upload asset to DA: ". *)
Theorem uploadAsset_error_wrapping {W}
    (transport : Request -> W -> (JsError + Response) * W)
    (fileSystem : string -> W -> (JsError + string) * W)
    token org repo path localFilePath contentType (w : W) :
  let attempt :=
    uploadAssetTry transport fileSystem token org repo path localFilePath
      contentType w in
  let run :=
    uploadAsset transport fileSystem token org repo path localFilePath
      contentType w in
  (forall result, outcomeOf attempt = Return result -> outcomeOf run = Return result) /\
  (forall t, outcomeOf attempt = Throw t ->
     exists e, t = ThrownError e /\
       outcomeOf run =
       Throw (ThrownError (newError
         (if includes (message e) "Failed to fetch" ||
             includes (message e) "SSL" || includes (message e) "TLS"
          then networkDiagnostic (message e)
          else "Failed to upload asset to DA: " ++ message e)))) /\
  (forall e, outcomeOf attempt = Throw (ThrownError e) ->
     isRetryable (message e) = true ->
     includes (message e) "Failed to fetch" = false ->
     includes (message e) "SSL" = false ->
     includes (message e) "TLS" = false ->
     outcomeOf run =
     Throw (ThrownError (newError ("Failed to upload asset to DA: " ++ message e)))).
Proof.
  intros attempt run.
  pose proof (uploadAsset_outcome transport fileSystem token org repo path
                localFilePath contentType w) as Hrun.
  pose proof (uploadAssetTry_throws_errors transport fileSystem token org repo
                path localFilePath contentType w) as Hdef.
  fold attempt in Hrun, Hdef. fold run in Hrun.
  repeat split.
  - intros result H. now rewrite Hrun, H.
  - intros t H. destruct t as [| e]; [congruence |].
    exists e. split; [reflexivity |]. now rewrite Hrun, H.
  - intros e H _ H1 H2 H3. rewrite Hrun, H.
    unfold rethrown, isNetworkFailure. now rewrite H1, H2, H3.
Qed.

(** C5 as stated fails. A connection reset is transient for the executor,
    which retries it three times; the error that reaches the caller is the
    prefixed one, not the network diagnostic. *)
Lemma transient_error_not_diagnosed_counterexample :
  let reset := mkError "Error" "read ECONNRESET" in
  let run :=
    uploadAsset scriptedTransport (fixedFile "bytes") (Some "token")
      "acme" "site" "assets/img.png" "./img.png" None
      [inl reset; inl reset; inl reset; inl reset] in
  isRetryable (message reset) = true /\
  invocations (traceOf run) = 4%nat /\
  outcomeOf run =
    Throw (ThrownError (newError "Failed to upload asset to DA: read ECONNRESET")) /\
  outcomeOf run <>
    Throw (ThrownError (newError (networkDiagnostic "read ECONNRESET"))).
Proof.
  cbv zeta. split; [reflexivity |]. split; [vm_compute; reflexivity |].
  assert (H : outcomeOf
                (uploadAsset scriptedTransport (fixedFile "bytes") (Some "token")
                   "acme" "site" "assets/img.png" "./img.png" None
                   [inl (mkError "Error" "read ECONNRESET");
                    inl (mkError "Error" "read ECONNRESET");
                    inl (mkError "Error" "read ECONNRESET");
                    inl (mkError "Error" "read ECONNRESET")])
              = Throw (ThrownError
                  (newError "Failed to upload asset to DA: read ECONNRESET")))
    by (vm_compute; reflexivity).
  split; [exact H |]. rewrite H. vm_compute. discriminate.
Qed.

Lemma upload_url_is_no_trigger_url org repo path :
  uploadUrlOf org repo path <> previewUrlOf org repo path /\
  uploadUrlOf org repo path <> publishUrlOf org repo path.
Proof.
  unfold uploadUrlOf, previewUrlOf, publishUrlOf. split; simpl; discriminate.
Qed.

(** C6. Once the file is read: a non-2xx answer to the upload makes step 2
    throw, after one invocation, an error that carries the status code (its
    body is read for the console first; when that read fails, the invocation
    throws the read error instead, which is fatal in the same way);
    transient errors at every attempt make it throw after four invocations;
    and whenever step 2 throws, uploadAsset throws an error, returns no
    result, and has sent nothing but the upload request: the preview and
    publish endpoints are never called. *)
Theorem upload_failure_is_fatal {W}
    (transport : Request -> W -> (JsError + Response) * W)
    (fileSystem : string -> W -> (JsError + string) * W)
    token org repo path localFilePath contentType (w w1 : W) (bytes : string) :
  fileSystem localFilePath w = (inr bytes, w1) ->
  let mimeType := resolveMimeType contentType localFilePath in
  let request := uploadRequestOf token org repo path bytes mimeType in
  let operation :=
    uploadOperation transport token (uploadUrlOf org repo path) path bytes mimeType in
  let step2 := retryWithBackoff operation 3 1000 w1 in
  let run :=
    uploadAsset transport fileSystem token org repo path localFilePath
      contentType w in
  (forall r w2, transport request w1 = (inr r, w2) -> ok r = false ->
     forall errorText, text r = inr errorText ->
     outcomeOf step2 =
       Throw (ThrownError
         (newError ("DA upload failed: " ++ numberToString (status r)))) /\
     invocations (traceOf step2) = 1%nat /\
     outcomeOf run =
       Throw (ThrownError
         (newError ("Failed to upload asset to DA: DA upload failed: " ++
                    numberToString (status r))))) /\
  (forall r w2 e, transport request w1 = (inr r, w2) -> ok r = false ->
     text r = inl e ->
     operation w1 = (Throw (ThrownError e), w2, [EvFetch request]) /\
     (isRetryable (message e) = false ->
      outcomeOf step2 = Throw (ThrownError e) /\
      invocations (traceOf step2) = 1%nat /\
      outcomeOf run = Throw (ThrownError (rethrown e)))) /\
  (AlwaysTransient operation ->
     exists e, outcomeOf step2 = Throw (ThrownError e) /\
               isRetryable (message e) = true /\
               invocations (traceOf step2) = 4%nat) /\
  (forall t, outcomeOf step2 = Throw t ->
     (exists e, outcomeOf run = Throw (ThrownError e)) /\
     (forall result, outcomeOf run <> Return result) /\
     (forall req, In req (fetches (traceOf run)) -> req = request) /\
     (forall req, In req (fetches (traceOf run)) ->
        reqUrl req <> previewUrlOf org repo path /\
        reqUrl req <> publishUrlOf org repo path)).
Proof.
  intros Hfile mimeType request operation step2 run.
  assert (Hquiet : Quiet operation) by apply uploadOperation_quiet.
  assert (Htry : forall t w2 t2, step2 = (Throw t, w2, t2) ->
            uploadAssetTry transport fileSystem token org repo path localFilePath
              contentType w
            = (Throw t, w2,
               ([EvLog (LogReadingFile localFilePath); EvReadFile localFilePath;
                 EvLog (LogFileRead (String.length bytes));
                 EvLog (LogUploadingTo (uploadUrlOf org repo path))] ++ t2)%list)).
  { intros t w2 t2 H. rewrite uploadAssetTry_run, Hfile. cbv zeta.
    fold mimeType. fold operation. fold step2. now rewrite H. }
  assert (Hfatal : forall t, outcomeOf step2 = Throw t ->
            exists e, t = ThrownError e /\
                      outcomeOf run = Throw (ThrownError (rethrown e)) /\
                      fetches (traceOf run) = fetches (traceOf step2)).
  { intros t Ht.
    pose proof (fun v => @upload_step_never_undefined W transport token org repo
                           path bytes mimeType w1 v) as Hdef.
    fold operation in Hdef. fold step2 in Hdef.
    destruct step2 as [[o w2] t2] eqn:Hstep. cbn in Ht. subst o.
    destruct t as [v | e]; [now elim (Hdef v) |].
    exists e. split; [reflexivity |].
    subst run. rewrite uploadAsset_run, (Htry _ _ _ eq_refl), uploadAssetCatch_run.
    split; [reflexivity |].
    cbn [traceOf snd app fetches]. rewrite fetches_app. cbn [fetches].
    apply app_nil_r. }
  split; [| split; [| split]].
  - intros r w2 Hresp Hok errorText Htext.
    assert (Hop : operation w1 =
              (Throw (ThrownError
                 (newError ("DA upload failed: " ++ numberToString (status r)))),
               w2, [EvFetch request; EvLog (LogUploadFailed (status r) errorText)])).
    { subst operation. rewrite uploadOperation_run. cbv zeta.
      fold mimeType. fold request. now rewrite Hresp, Hok, Htext. }
    destruct (upload_failed_classification (status r)) as [Hnr Hnn].
    assert (Hstep : step2 =
              (Throw (ThrownError
                 (newError ("DA upload failed: " ++ numberToString (status r)))),
               w2,
               [EvInvoke; EvFetch request;
                EvLog (LogUploadFailed (status r) errorText)])).
    { subst step2. unfold retryWithBackoff.
      apply retryLoop_rethrow; [lia | exact Hop | left; exact Hnr]. }
    split; [now rewrite Hstep |]. split; [now rewrite Hstep |].
    destruct (Hfatal _ ltac:(rewrite Hstep; reflexivity)) as (e & He & Hrun & _).
    assert (He' : e = newError ("DA upload failed: " ++ numberToString (status r)))
      by congruence.
    rewrite Hrun, He'. unfold rethrown. cbn [message newError].
    now rewrite Hnn.
  - intros r w2 e Hresp Hok Htext.
    assert (Hop : operation w1 = (Throw (ThrownError e), w2, [EvFetch request])).
    { subst operation. rewrite uploadOperation_run. cbv zeta.
      fold mimeType. fold request. now rewrite Hresp, Hok, Htext. }
    split; [exact Hop |]. intro Hnr.
    assert (Hstep : step2 = (Throw (ThrownError e), w2, [EvInvoke; EvFetch request])).
    { subst step2. unfold retryWithBackoff.
      apply retryLoop_rethrow; [lia | exact Hop | left; exact Hnr]. }
    split; [now rewrite Hstep |]. split; [now rewrite Hstep |].
    destruct (Hfatal _ ltac:(rewrite Hstep; reflexivity)) as (e' & He & Hrun & _).
    assert (He' : e' = e) by congruence.
    now rewrite Hrun, He'.
  - intro Hfail.
    destruct (@retryLoop_exhausts W unit operation 3 1000 Hfail Hquiet
                3%nat 0 ThrownUndefined w1 ltac:(lia)) as (Ho & _ & Ht).
    fold (retryWithBackoff operation 3 1000) in Ho, Ht. fold step2 in Ho, Ht.
    destruct (Hfail (worldAfter operation 3 w1)) as (e & He & Hre).
    exists e. split; [now rewrite Ho |]. split; [exact Hre |].
    now rewrite <- invocations_executorEvents, Ht.
  - intros t Ht. destruct (Hfatal t Ht) as (e & -> & Hrun & Hreqs).
    assert (Hall : forall req, In req (fetches (traceOf run)) -> req = request).
    { intros req Hin. rewrite Hreqs in Hin.
      exact (upload_step_requests transport token org repo path bytes mimeType
               w1 req Hin). }
    split; [eexists; exact Hrun |]. split; [intro result; now rewrite Hrun |].
    split; [exact Hall |].
    intros req Hin. rewrite (Hall req Hin). cbn [request uploadRequestOf reqUrl].
    apply upload_url_is_no_trigger_url.
Qed.

Lemma upload_failure_is_fatal_witness :
  let busy := mkResponse false 503 None (inr "busy") in
  let run :=
    uploadAsset scriptedTransport (fixedFile "bytes") (Some "token")
      "acme" "site" "assets/img.png" "./img.png" None [inr busy] in
  fixedFile "bytes" "./img.png" [inr busy] = (inr "bytes", [inr busy]) /\
  outcomeOf run =
    Throw (ThrownError
      (newError "Failed to upload asset to DA: DA upload failed: 503")) /\
  (forall req, In req (fetches (traceOf run)) ->
     reqUrl req <> previewUrlOf "acme" "site" "assets/img.png" /\
     reqUrl req <> publishUrlOf "acme" "site" "assets/img.png").
Proof.
  intros busy run.
  assert (Hfile : fixedFile "bytes" "./img.png" [inr busy] = (inr "bytes", [inr busy]))
    by reflexivity.
  split; [exact Hfile |].
  pose proof (@upload_failure_is_fatal Script scriptedTransport (fixedFile "bytes")
                (Some "token") "acme" "site" "assets/img.png" "./img.png" None
                [inr busy] [inr busy] "bytes" Hfile) as (Hstatus & _ & _ & Hfatal).
  destruct (Hstatus busy [] eq_refl eq_refl "busy" eq_refl) as (Hstep & _ & Hrun).
  split; [exact Hrun |].
  exact (proj2 (proj2 (proj2 (Hfatal _ Hstep)))).
Defined.

Section TriggerStatus.

Context {W : Type}.
Variable transport : Request -> W -> (JsError + Response) * W.
Variable fileSystem : string -> W -> (JsError + string) * W.
Variable token : option string.
Variables org repo path localFilePath : string.
Variable contentType : option string.

(** When the transport answers the three requests and the upload is
    accepted, the workflow returns its result whatever the status of the
    preview and publish answers. *)
Lemma trigger_status_is_tolerated w bytes w1 r2 w2 r3 w3 r4 w4 :
  let mimeType := resolveMimeType contentType localFilePath in
  fileSystem localFilePath w = (inr bytes, w1) ->
  transport (uploadRequestOf token org repo path bytes mimeType) w1 = (inr r2, w2) ->
  ok r2 = true ->
  transport (triggerRequestOf token (previewUrlOf org repo path)) w2 = (inr r3, w3) ->
  transport (triggerRequestOf token (publishUrlOf org repo path)) w3 = (inr r4, w4) ->
  outcomeOf (uploadAsset transport fileSystem token org repo path localFilePath
               contentType w)
  = Return (uploadResultOf org repo path bytes mimeType).
Proof.
  intros mimeType Hfile Hupload Hok Hpreview Hpublish.
  rewrite uploadAsset_run, uploadAssetTry_run, Hfile. cbv zeta. fold mimeType.
  unfold retryWithBackoff.
  rewrite (retryLoop_success _ 1000 ThrownUndefined w1 (attempt:=0) (maxRetries:=3)
             (a:=tt) (w1:=w2)
             (t1:=[EvFetch (uploadRequestOf token org repo path bytes mimeType);
                   EvLog (LogUploaded path)]) ltac:(lia)).
  2: { rewrite uploadOperation_run. cbv zeta. now rewrite Hupload, Hok. }
  rewrite (retryLoop_success _ 500 ThrownUndefined w2 (attempt:=0) (maxRetries:=2)
             (a:=tt) (w1:=w3)
             (t1:=[EvFetch (triggerRequestOf token (previewUrlOf org repo path));
                   EvLog (if ok r3 then LogPreviewTriggered
                          else LogPreviewFailed (status r3))]) ltac:(lia)).
  2: { rewrite previewOperation_run. cbv zeta. now rewrite Hpreview. }
  rewrite (retryLoop_success _ 500 ThrownUndefined w3 (attempt:=0) (maxRetries:=2)
             (a:=tt) (w1:=w4)
             (t1:=[EvFetch (triggerRequestOf token (publishUrlOf org repo path));
                   EvLog (if ok r4 then LogPublishTriggered
                          else LogPublishFailed (status r4))]) ltac:(lia)).
  2: { rewrite publishOperation_run. cbv zeta. now rewrite Hpublish. }
  reflexivity.
Qed.

End TriggerStatus.

(** C1, at the inputs where the code departs from it. The upload is
    accepted (200); then every attempt of the preview request is rejected
    with "Failed to fetch". The executor gives up after three attempts and
    its error leaves the try block: uploadAsset throws the network
    diagnostic, returns no result and never calls the publish endpoint. The
    same happens when the preview is answered and the publish request is
    rejected three times. *)
Theorem trigger_retry_exhaustion_reaches_caller :
  let run script :=
    uploadAsset scriptedTransport (fixedFile "bytes") (Some "token")
      "acme" "site" "assets/img.png" "./img.png" None script in
  let previewDown : Script :=
    [inr okResponse; inl failedToFetch; inl failedToFetch; inl failedToFetch] in
  let publishDown : Script :=
    [inr okResponse; inr okResponse;
     inl failedToFetch; inl failedToFetch; inl failedToFetch] in
  let uploadUrl := uploadUrlOf "acme" "site" "assets/img.png" in
  let previewUrl := previewUrlOf "acme" "site" "assets/img.png" in
  let publishUrl := publishUrlOf "acme" "site" "assets/img.png" in
  outcomeOf (run previewDown)
    = Throw (ThrownError (newError (networkDiagnostic "Failed to fetch"))) /\
  map reqUrl (fetches (traceOf (run previewDown)))
    = [uploadUrl; previewUrl; previewUrl; previewUrl] /\
  outcomeOf (run publishDown)
    = Throw (ThrownError (newError (networkDiagnostic "Failed to fetch"))) /\
  map reqUrl (fetches (traceOf (run publishDown)))
    = [uploadUrl; previewUrl; publishUrl; publishUrl; publishUrl].
Proof. cbv zeta. repeat split; vm_compute; reflexivity. Qed.

(* ===================================================================== *)
(** ** Further properties of retryWithBackoff *)
(* ===================================================================== *)

Section RetryRecovery.

Context {W A : Type}.
Variable fn : M W A.
Variables maxRetries initialDelay : Z.

Lemma retryLoop_recovers (a : A) :
  Quiet fn ->
  forall (failures : nat) attempt lastError w,
    attempt + Z.of_nat failures <= maxRetries ->
    (forall i, (i < failures)%nat ->
       exists e, outcomeOf (fn (worldAfter fn i w)) = Throw (ThrownError e) /\
                 isRetryable (message e) = true) ->
    outcomeOf (fn (worldAfter fn failures w)) = Return a ->
    let r := retryLoop fn maxRetries initialDelay attempt lastError w in
    outcomeOf r = Return a /\
    worldOf r = worldAfter fn (S failures) w /\
    executorEvents (traceOf r) = schedule initialDelay attempt failures.
Proof.
  intro Hquiet.
  induction failures as [| k IH]; intros attempt lastError w Hle Hfail Hok r; subst r.
  - cbn [worldAfter] in Hok |- *.
    destruct (fn w) as [[o w1] t1] eqn:Hfn. cbn in Hok. subst o.
    rewrite (retryLoop_success fn initialDelay lastError w
               (attempt:=attempt) (maxRetries:=maxRetries) ltac:(lia) Hfn).
    cbn. repeat split.
    now rewrite executorEvents_invoke, (@quiet_trace _ _ fn _ _ _ _ Hquiet Hfn).
  - destruct (Hfail 0%nat ltac:(lia)) as (e & He & Hre). cbn [worldAfter] in He.
    destruct (fn w) as [[o w1] t1] eqn:Hfn. cbn in He. subst o.
    rewrite (retryLoop_retry fn initialDelay lastError w
               (attempt:=attempt) (maxRetries:=maxRetries) ltac:(lia) Hfn Hre).
    specialize (IH (attempt + 1) (ThrownError e) w1 ltac:(lia)).
    assert (Hfail' : forall i, (i < k)%nat ->
              exists e', outcomeOf (fn (worldAfter fn i w1)) = Throw (ThrownError e') /\
                         isRetryable (message e') = true).
    { intros i Hi. specialize (Hfail (S i) ltac:(lia)).
      cbn [worldAfter] in Hfail. now rewrite Hfn in Hfail. }
    assert (Hok' : outcomeOf (fn (worldAfter fn k w1)) = Return a).
    { cbn [worldAfter] in Hok. now rewrite Hfn in Hok. }
    specialize (IH Hfail' Hok'). cbv zeta in IH.
    destruct (retryLoop fn maxRetries initialDelay (attempt + 1) (ThrownError e) w1)
      as [[r w2] t2].
    cbn in IH. destruct IH as (IHo & IHw & IHt).
    cbn. rewrite Hfn. cbn. repeat split; auto.
    rewrite executorEvents_invoke, executorEvents_app, (@quiet_trace _ _ fn _ _ _ _ Hquiet Hfn).
    cbn [app]. now rewrite executorEvents_log, executorEvents_sleep, IHt.
Qed.

End RetryRecovery.

(** X1. An operation that fails transiently on its first k invocations
    (k <= maxRetries) and succeeds on the next one: retryWithBackoff returns
    that value after exactly k + 1 invocations and k timers of
    initialDelay * 2^0 .. initialDelay * 2^(k-1); nothing follows the
    success. *)
Theorem retry_returns_first_success {W A} (fn : M W A) (R d : Z) (w : W)
    (k : nat) (a : A) :
  Quiet fn ->
  Z.of_nat k <= R ->
  (forall i, (i < k)%nat ->
     exists e, outcomeOf (fn (worldAfter fn i w)) = Throw (ThrownError e) /\
               isRetryable (message e) = true) ->
  outcomeOf (fn (worldAfter fn k w)) = Return a ->
  let r := retryWithBackoff fn R d w in
  outcomeOf r = Return a /\
  worldOf r = worldAfter fn (S k) w /\
  invocations (traceOf r) = S k /\
  delays (traceOf r) = map (fun i => d * 2 ^ Z.of_nat i) (seq 0 k).
Proof.
  intros Hquiet Hk Hfail Hok r.
  destruct (@retryLoop_recovers W A fn R d a Hquiet k 0 ThrownUndefined w
              ltac:(lia) Hfail Hok) as (Ho & Hw & Ht).
  fold (retryWithBackoff fn R d) in Ho, Hw, Ht. fold r in Ho, Hw, Ht.
  repeat split; auto.
  - now rewrite <- invocations_executorEvents, Ht, invocations_schedule.
  - rewrite <- delays_executorEvents, Ht, delays_schedule.
    apply map_ext. intro i. now rewrite Z.add_0_l.
Qed.

Lemma retry_returns_first_success_witness :
  Quiet (failsThenSucceeds 2 "Network unreachable") /\
  let r := retryWithBackoff (failsThenSucceeds 2 "Network unreachable") 3 1000 0%nat in
  outcomeOf r = Return true /\
  worldOf r = 3%nat /\
  invocations (traceOf r) = 3%nat /\
  delays (traceOf r) = [1000; 2000].
Proof.
  assert (Hquiet : Quiet (failsThenSucceeds 2 "Network unreachable")).
  { intro w. unfold failsThenSucceeds. destruct (w <? 2)%nat; reflexivity. }
  split; [exact Hquiet |].
  refine (@retry_returns_first_success nat bool
            (failsThenSucceeds 2 "Network unreachable") 3 1000 0%nat 2%nat true
            Hquiet ltac:(lia) _ eq_refl).
  intros i Hi. destruct i as [| [| i]]; [| | lia]; eexists; split; reflexivity.
Defined.

(** X2. With a negative maxRetries the loop body never runs: the operation
    is not invoked, no timer is set, the world is untouched, and what is
    thrown is the never-assigned lastError, [undefined]. *)
Theorem retry_negative_budget_throws_undefined {W A} (fn : M W A) (R d : Z) (w : W) :
  R < 0 ->
  let r := retryWithBackoff fn R d w in
  outcomeOf r = Throw ThrownUndefined /\
  worldOf r = w /\
  invocations (traceOf r) = 0%nat /\
  traceOf r = [].
Proof.
  intros H r. subst r. unfold retryWithBackoff.
  rewrite retryLoop_exit by exact H. repeat split.
Qed.

Lemma retry_negative_budget_throws_undefined_witness :
  let r := retryWithBackoff (alwaysFails "Network unreachable") (-1) 1000 0%nat in
  outcomeOf r = Throw ThrownUndefined /\
  worldOf r = 0%nat /\
  invocations (traceOf r) = 0%nat /\
  traceOf r = [].
Proof.
  exact (@retry_negative_budget_throws_undefined nat unit
           (alwaysFails "Network unreachable") (-1) 1000 0%nat ltac:(lia)).
Defined.

(** X3. For maxRetries >= 0 the operation is invoked at least once and at
    most maxRetries + 1 times, there is one timer less than invocations, and
    [undefined] is never thrown. *)
Theorem retry_attempt_bounds {W A} (fn : M W A) (R d : Z) (w : W) :
  Quiet fn -> 0 <= R ->
  let r := retryWithBackoff fn R d w in
  (1 <= invocations (traceOf r))%nat /\
  Z.of_nat (invocations (traceOf r)) <= R + 1 /\
  S (List.length (delays (traceOf r))) = invocations (traceOf r) /\
  outcomeOf r <> Throw ThrownUndefined.
Proof.
  intros Hq HR r.
  destruct (@retryWithBackoff_schedule W A fn R d w Hq HR) as (k & Hk & Ht).
  fold r in Ht.
  assert (Hi : invocations (traceOf r) = S k)
    by now rewrite <- invocations_executorEvents, Ht, invocations_schedule.
  assert (Hd : List.length (delays (traceOf r)) = k).
  { rewrite <- delays_executorEvents, Ht, delays_schedule.
    now rewrite length_map, length_seq. }
  rewrite Hi, Hd. repeat split; try lia.
  apply retryWithBackoff_never_undefined. exact HR.
Qed.

Lemma retry_attempt_bounds_witness :
  Quiet (failsThenSucceeds 5 "TLS handshake") /\
  let r := retryWithBackoff (failsThenSucceeds 5 "TLS handshake") 2 500 0%nat in
  (1 <= invocations (traceOf r))%nat /\
  Z.of_nat (invocations (traceOf r)) <= 2 + 1 /\
  S (List.length (delays (traceOf r))) = invocations (traceOf r) /\
  outcomeOf r <> Throw ThrownUndefined.
Proof.
  assert (Hquiet : Quiet (failsThenSucceeds 5 "TLS handshake")).
  { intro w. unfold failsThenSucceeds. destruct (w <? 5)%nat; reflexivity. }
  split; [exact Hquiet |].
  exact (@retry_attempt_bounds nat bool (failsThenSucceeds 5 "TLS handshake")
           2 500 0%nat Hquiet ltac:(lia)).
Defined.

Section RetryLastOutcome.

Context {W A : Type}.
Variable fn : M W A.
Variables maxRetries initialDelay : Z.

Lemma retryLoop_undefined_exact attempt lastError w w1 t1 v :
  attempt <= maxRetries ->
  fn w = (Throw (ThrownValue v), w1, t1) ->
  retryLoop fn maxRetries initialDelay attempt lastError w
  = (Throw (ThrownError (messageTypeError v)), w1, EvInvoke :: t1).
Proof.
  intros H Hfn. rewrite retryLoop_eq.
  apply Z.leb_le in H. rewrite H.
  unfold tryCatch, bind, emit. rewrite Hfn. cbn.
  now rewrite app_nil_r.
Qed.


End RetryLastOutcome.



Lemma totalDelay_schedule d k :
  forall a, 0 <= a ->
    fold_right Z.add 0 (delays (schedule d a k)) = d * 2 ^ a * (2 ^ Z.of_nat k - 1).
Proof.
  induction k as [| k IH]; intros a Ha.
  - cbn. lia.
  - cbn [schedule delays fold_right]. rewrite IH by lia.
    rewrite Nat2Z.inj_succ, Z.pow_succ_r by lia.
    rewrite (Z.pow_add_r 2 a 1), Z.pow_1_r by lia. ring.
Qed.

(** X5. For maxRetries >= 0 and initialDelay >= 0 in the range where the
    loop's arithmetic is exact, every delay handed to a backoff timer is a
    safe integer and the delays of one run add up to at most
    initialDelay * (2^maxRetries - 1), and to exactly that when the
    operation fails transiently on every invocation. *)
Theorem retry_total_backoff_bound {W A} (fn : M W A) (R d : Z) (w : W) :
  Quiet fn -> 0 <= R -> 0 <= d -> inSafeRange R d ->
  let r := retryWithBackoff fn R d w in
  (forall ms, In ms (delays (traceOf r)) -> 0 <= ms <= MAX_SAFE_INTEGER) /\
  0 <= totalDelay (traceOf r) <= d * (2 ^ R - 1) /\
  d * (2 ^ R - 1) <= MAX_SAFE_INTEGER /\
  (AlwaysTransient fn -> totalDelay (traceOf r) = d * (2 ^ R - 1)).
Proof.
  intros Hq HR Hd Hrange r.
  destruct (@retryWithBackoff_schedule W A fn R d w Hq HR) as (k & Hk & Ht).
  fold r in Ht. unfold totalDelay.
  assert (H2R : 0 < 2 ^ R) by (apply Z.pow_pos_nonneg; lia).
  split; [| split; [| split]].
  - intros ms Hin.
    rewrite <- delays_executorEvents, Ht, delays_schedule in Hin.
    apply in_map_iff in Hin. destruct Hin as (i & <- & Hi).
    apply in_seq in Hi. rewrite Z.add_0_l.
    assert (Hnn : 0 <= d * 2 ^ Z.of_nat i)
      by (apply Z.mul_nonneg_nonneg; [exact Hd | apply Z.pow_nonneg; lia]).
    split; [exact Hnn |].
    rewrite <- (Z.abs_eq _ Hnn).
    apply (@safe_delay R d (Z.of_nat i) Hrange). lia.
  - rewrite <- delays_executorEvents, Ht, totalDelay_schedule by lia.
    rewrite Z.pow_0_r, Z.mul_1_r.
    assert (H1 : 0 < 2 ^ Z.of_nat k) by (apply Z.pow_pos_nonneg; lia).
    assert (H2 : 2 ^ Z.of_nat k <= 2 ^ R) by (apply Z.pow_le_mono_r; lia).
    split; [apply Z.mul_nonneg_nonneg; lia |].
    apply Z.mul_le_mono_nonneg_l; lia.
  - destruct Hrange as [_ Hmax]. rewrite Z.abs_eq in Hmax by exact Hd.
    apply Z.le_trans with (d * 2 ^ R); [| exact Hmax].
    apply Z.mul_le_mono_nonneg_l; lia.
  - intro Hfail.
    destruct (@retryLoop_exhausts W A fn R d Hfail Hq (Z.to_nat R) 0
                ThrownUndefined w ltac:(lia)) as (_ & _ & Ht').
    fold (retryWithBackoff fn R d) in Ht'. fold r in Ht'.
    rewrite <- delays_executorEvents, Ht', totalDelay_schedule by lia.
    rewrite Z.pow_0_r, Z.mul_1_r, Z2Nat.id by lia. reflexivity.
Qed.

Lemma retry_total_backoff_bound_witness :
  Quiet (alwaysFails "ECONNRESET") /\ AlwaysTransient (alwaysFails "ECONNRESET") /\
  inSafeRange 3 1000 /\
  totalDelay (traceOf (retryWithBackoff (alwaysFails "ECONNRESET") 3 1000 0%nat))
  = 7000.
Proof.
  assert (Hquiet : Quiet (alwaysFails "ECONNRESET")) by (intro w; reflexivity).
  assert (Hfail : AlwaysTransient (alwaysFails "ECONNRESET"))
    by (intro w; eexists; split; reflexivity).
  assert (Hrange : inSafeRange 3 1000) by (split; vm_compute; discriminate).
  split; [exact Hquiet |]. split; [exact Hfail |]. split; [exact Hrange |].
  exact (proj2 (proj2 (proj2
           (@retry_total_backoff_bound nat unit (alwaysFails "ECONNRESET")
              3 1000 0%nat Hquiet ltac:(lia) ltac:(lia) Hrange))) Hfail).
Defined.

(* ===================================================================== *)
(** ** Requests of a run of the executor *)
(* ===================================================================== *)

Lemma invocations_app t1 t2 :
  invocations (t1 ++ t2) = (invocations t1 + invocations t2)%nat.
Proof.
  induction t1 as [| ev t1 IH]; [reflexivity |].
  destruct ev; cbn; rewrite ?IH; reflexivity.
Qed.

Lemma fileReads_app t1 t2 :
  fileReads (t1 ++ t2) = (fileReads t1 + fileReads t2)%nat.
Proof.
  induction t1 as [| ev t1 IH]; [reflexivity |].
  destruct ev; cbn; rewrite ?IH; reflexivity.
Qed.

Lemma delays_app t1 t2 : delays (t1 ++ t2) = (delays t1 ++ delays t2)%list.
Proof.
  induction t1 as [| ev t1 IH]; [reflexivity |].
  destruct ev; cbn; rewrite ?IH; reflexivity.
Qed.

Section RetryRequests.

Context {W A : Type}.
Variable fn : M W A.
Variables maxRetries initialDelay : Z.
Variable req : Request.
Hypothesis fn_quiet : Quiet fn.
Hypothesis fn_request : forall w, fetches (traceOf (fn w)) = [req].
Hypothesis fn_no_read : forall w, fileReads (traceOf (fn w)) = 0%nat.

(** An operation that sends one request per invocation: a run sends that
    request once per invocation and reads no file. *)
Lemma retryLoop_requests :
  forall (retries : nat) attempt lastError w,
    Z.of_nat retries = maxRetries - attempt ->
    let t := traceOf (retryLoop fn maxRetries initialDelay attempt lastError w) in
    fetches t = repeat req (invocations t) /\ fileReads t = 0%nat.
Proof.
  assert (Hone : forall w o w1 t1, fn w = (o, w1, t1) ->
            fetches (EvInvoke :: t1) = repeat req (invocations (EvInvoke :: t1)) /\
            fileReads (EvInvoke :: t1) = 0%nat).
  { intros w o w1 t1 Hfn.
    pose proof (fn_request w) as Hr. pose proof (fn_no_read w) as Hn.
    pose proof (@quiet_trace _ _ fn _ _ _ _ fn_quiet Hfn) as Hq.
    rewrite Hfn in Hr, Hn. cbn [traceOf snd] in Hr, Hn.
    cbn [fetches invocations fileReads].
    rewrite <- invocations_executorEvents, Hq, Hr. split; [reflexivity | exact Hn]. }
  induction retries as [| n IH]; intros attempt lastError w Hn t; subst t;
    destruct (fn w) as [[o w1] t1] eqn:Hfn;
    destruct o as [a | [v | e]].
  1, 4: rewrite (retryLoop_success fn initialDelay lastError w
                   (attempt:=attempt) (maxRetries:=maxRetries) ltac:(lia) Hfn);
        exact (Hone _ _ _ _ Hfn).
  1, 3: rewrite (@retryLoop_undefined_exact W A fn maxRetries initialDelay
                   attempt lastError w w1 t1 v ltac:(lia) Hfn);
        exact (Hone _ _ _ _ Hfn).
  - rewrite (retryLoop_rethrow fn initialDelay lastError w
               (attempt:=attempt) (maxRetries:=maxRetries)
               ltac:(lia) Hfn ltac:(right; lia)).
    exact (Hone _ _ _ _ Hfn).
  - destruct (isRetryable (message e)) eqn:Hre.
    + rewrite (retryLoop_retry fn initialDelay lastError w
                 (attempt:=attempt) (maxRetries:=maxRetries)
                 ltac:(lia) Hfn Hre).
      specialize (IH (attempt + 1) (ThrownError e) w1 ltac:(lia)). cbv zeta in IH.
      destruct (retryLoop fn maxRetries initialDelay (attempt + 1) (ThrownError e) w1)
        as [[r w2] t2].
      cbn [traceOf snd] in IH |- *. destruct IH as [IHf IHr].
      destruct (Hone _ _ _ _ Hfn) as [H1f H1r].
      cbn [fetches invocations fileReads] in H1f, H1r |- *.
      rewrite fetches_app, invocations_app, fileReads_app.
      cbn [fetches invocations fileReads].
      pose proof (@quiet_trace _ _ fn _ _ _ _ fn_quiet Hfn) as Hq.
      assert (Hi : invocations t1 = 0%nat)
        by now rewrite <- invocations_executorEvents, Hq.
      rewrite Hi in H1f |- *. rewrite H1f, IHf, H1r, IHr.
      split; reflexivity.
    + rewrite (retryLoop_rethrow fn initialDelay lastError w
                 (attempt:=attempt) (maxRetries:=maxRetries)
                 ltac:(lia) Hfn ltac:(now left)).
      exact (Hone _ _ _ _ Hfn).
Qed.

Lemma retryWithBackoff_requests w :
  0 <= maxRetries ->
  exists n, (1 <= n)%nat /\ Z.of_nat n <= maxRetries + 1 /\
    fetches (traceOf (retryWithBackoff fn maxRetries initialDelay w)) = repeat req n /\
    fileReads (traceOf (retryWithBackoff fn maxRetries initialDelay w)) = 0%nat.
Proof.
  intro HR.
  destruct (@retryWithBackoff_schedule W A fn maxRetries initialDelay w fn_quiet HR)
    as (k & Hk & Ht).
  destruct (retryLoop_requests (Z.to_nat maxRetries) 0 ThrownUndefined w
              ltac:(lia)) as [Hf Hr].
  fold (retryWithBackoff fn maxRetries initialDelay) in Hf, Hr.
  exists (S k). split; [lia |]. split; [lia |]. split; [| exact Hr].
  rewrite Hf. f_equal.
  now rewrite <- invocations_executorEvents, Ht, invocations_schedule.
Qed.

End RetryRequests.

(* ===================================================================== *)
(** ** Further properties of uploadAsset *)
(* ===================================================================== *)

Section UploadRequests.

Context {W : Type}.
Variable transport : Request -> W -> (JsError + Response) * W.
Variable fileSystem : string -> W -> (JsError + string) * W.
Variable token : option string.
Variables org repo path localFilePath : string.
Variable contentType : option string.

Lemma uploadOperation_one_request bytes mimeType w :
  fetches (traceOf (uploadOperation transport token (uploadUrlOf org repo path)
                      path bytes mimeType w))
  = [uploadRequestOf token org repo path bytes mimeType] /\
  fileReads (traceOf (uploadOperation transport token (uploadUrlOf org repo path)
                        path bytes mimeType w)) = 0%nat.
Proof.
  rewrite uploadOperation_run. cbv zeta.
  destruct (transport _ w) as [[e | r] w1];
    [| destruct (ok r); [| destruct (text r)]]; split; reflexivity.
Qed.

Lemma previewOperation_one_request url w :
  fetches (traceOf (previewOperation transport token url w))
  = [triggerRequestOf token url] /\
  fileReads (traceOf (previewOperation transport token url w)) = 0%nat /\
  executorEvents (traceOf (previewOperation transport token url w)) = [].
Proof.
  rewrite previewOperation_run. cbv zeta.
  destruct (transport _ w) as [[e | r] w1]; repeat split.
Qed.

Lemma publishOperation_one_request url w :
  fetches (traceOf (publishOperation transport token url w))
  = [triggerRequestOf token url] /\
  fileReads (traceOf (publishOperation transport token url w)) = 0%nat /\
  executorEvents (traceOf (publishOperation transport token url w)) = [].
Proof.
  rewrite publishOperation_run. cbv zeta.
  destruct (transport _ w) as [[e | r] w1]; repeat split.
Qed.

(** The catch clause sends nothing and reads nothing. *)
Lemma uploadAsset_observations w :
  let run := uploadAsset transport fileSystem token org repo path localFilePath
               contentType w in
  let attempt := uploadAssetTry transport fileSystem token org repo path
                   localFilePath contentType w in
  fetches (traceOf run) = fetches (traceOf attempt) /\
  fileReads (traceOf run) = fileReads (traceOf attempt) /\
  invocations (traceOf run) = invocations (traceOf attempt) /\
  delays (traceOf run) = delays (traceOf attempt).
Proof.
  assert (Hlogs : forall logs : list Event,
            Forall (fun ev : Event => exists line, ev = EvLog line) logs ->
            fetches logs = [] /\ fileReads logs = 0%nat /\
            invocations logs = 0%nat /\ delays logs = []).
  { induction 1 as [| ev logs [line ->] _ IH]; [repeat split | exact IH]. }
  cbv zeta. rewrite uploadAsset_run.
  destruct (uploadAssetTry transport fileSystem token org repo path localFilePath
              contentType w) as [[[result | [v | e]] w1] t1].
  - repeat split.
  - destruct (uploadAssetCatch_other v w1) as (logs & -> & Hall).
    destruct (Hlogs logs Hall) as (Hf & Hr & Hi & Hd).
    cbn [traceOf snd app]. cbn [fetches fileReads invocations delays].
    rewrite fetches_app, fileReads_app, invocations_app, delays_app.
    rewrite Hf, Hr, Hi, Hd.
    rewrite !app_nil_r, !Nat.add_0_r. repeat split.
  - rewrite uploadAssetCatch_run.
    cbn [traceOf snd app]. cbn [fetches fileReads invocations delays].
    rewrite fetches_app, fileReads_app, invocations_app, delays_app. cbn.
    rewrite !app_nil_r, !Nat.add_0_r. repeat split.
Qed.

End UploadRequests.

Ltac observe_trace :=
  repeat first
    [ progress cbn [traceOf snd app fetches fileReads invocations delays]
    | rewrite fetches_app
    | rewrite fileReads_app
    | rewrite invocations_app
    | rewrite delays_app ].

(** X6. Whatever the transport and the file system do, one call of
    uploadAsset reads the file once and sends at most four upload requests,
    then at most three preview requests, then at most three publish
    requests, in that order and to no other URL; all of them are POSTs
    carrying the bearer token. *)
Theorem uploadAsset_request_budget {W}
    (transport : Request -> W -> (JsError + Response) * W)
    (fileSystem : string -> W -> (JsError + string) * W)
    token org repo path localFilePath contentType (w : W) :
  let run := uploadAsset transport fileSystem token org repo path localFilePath
               contentType w in
  fileReads (traceOf run) = 1%nat /\
  exists uploads previews publishes,
    fetches (traceOf run) = (uploads ++ previews ++ publishes)%list /\
    (List.length uploads <= 4)%nat /\
    (List.length previews <= 3)%nat /\
    (List.length publishes <= 3)%nat /\
    Forall (fun req => reqUrl req = uploadUrlOf org repo path) uploads /\
    Forall (fun req => reqUrl req = previewUrlOf org repo path) previews /\
    Forall (fun req => reqUrl req = publishUrlOf org repo path) publishes /\
    Forall (fun req => reqMethod req = "POST" /\
                       reqHeaders req =
                       [("Authorization",
                         "Bearer " ++ match token with
                                      | Some t => t
                                      | None => "undefined"
                                      end)])
      (fetches (traceOf run)).
Proof.
  intro run.
  destruct (uploadAsset_observations transport fileSystem token org repo path
              localFilePath contentType w) as (Hf & Hr & _).
  fold run in Hf, Hr. rewrite Hf, Hr. clear Hf Hr run.
  rewrite uploadAssetTry_run.
  destruct (fileSystem localFilePath w) as [[e | bytes] w1].
  { split; [reflexivity |]. exists [], [], []. cbn. repeat split; auto; lia. }
  cbv zeta.
  set (mimeType := resolveMimeType contentType localFilePath).
  set (ureq := uploadRequestOf token org repo path bytes mimeType).
  set (preq := triggerRequestOf token (previewUrlOf org repo path)).
  set (lreq := triggerRequestOf token (publishUrlOf org repo path)).
  assert (Hrep : forall (req : Request) (Q : Request -> Prop) n,
            Q req -> Forall Q (repeat req n)).
  { intros req Q n HQ. apply Forall_forall. intros x Hin.
    apply repeat_spec in Hin. now subst x. }
  assert (H2 : forall w', exists n, (1 <= n)%nat /\ Z.of_nat n <= 3 + 1 /\
            fetches (traceOf (retryWithBackoff
              (uploadOperation transport token (uploadUrlOf org repo path) path
                 bytes mimeType) 3 1000 w')) = repeat ureq n /\
            fileReads (traceOf (retryWithBackoff
              (uploadOperation transport token (uploadUrlOf org repo path) path
                 bytes mimeType) 3 1000 w')) = 0%nat).
  { intro w'. apply retryWithBackoff_requests; [| | | lia].
    - apply uploadOperation_quiet.
    - intro w0. apply uploadOperation_one_request.
    - intro w0. apply uploadOperation_one_request. }
  assert (H3 : forall w', exists n, (1 <= n)%nat /\ Z.of_nat n <= 2 + 1 /\
            fetches (traceOf (retryWithBackoff
              (previewOperation transport token (previewUrlOf org repo path))
              2 500 w')) = repeat preq n /\
            fileReads (traceOf (retryWithBackoff
              (previewOperation transport token (previewUrlOf org repo path))
              2 500 w')) = 0%nat).
  { intro w'. apply retryWithBackoff_requests; [| | | lia]; intro w0;
      apply previewOperation_one_request. }
  assert (H4 : forall w', exists n, (1 <= n)%nat /\ Z.of_nat n <= 2 + 1 /\
            fetches (traceOf (retryWithBackoff
              (publishOperation transport token (publishUrlOf org repo path))
              2 500 w')) = repeat lreq n /\
            fileReads (traceOf (retryWithBackoff
              (publishOperation transport token (publishUrlOf org repo path))
              2 500 w')) = 0%nat).
  { intro w'. apply retryWithBackoff_requests; [| | | lia]; intro w0;
      apply publishOperation_one_request. }
  assert (Hpost : forall req, req = ureq \/ req = preq \/ req = lreq ->
            reqMethod req = "POST" /\
            reqHeaders req =
            [("Authorization",
              "Bearer " ++ match token with Some t => t | None => "undefined" end)]).
  { intros req [-> | [-> | ->]]; split; reflexivity. }
  destruct (H2 w1) as (n2 & _ & Hn2 & Hf2 & Hr2).
  destruct (retryWithBackoff _ 3 1000 w1) as [[[[] | t] w2] t2];
    cbn [traceOf snd] in Hf2, Hr2 |- *.
  2: { observe_trace. rewrite Hf2, Hr2.
       split; [reflexivity |]. exists (repeat ureq n2), [], [].
       rewrite !app_nil_r, repeat_length. cbn [List.length].
       repeat split; auto; try lia; now apply Hrep. }
  destruct (H3 w2) as (n3 & _ & Hn3 & Hf3 & Hr3).
  destruct (retryWithBackoff _ 2 500 w2) as [[[[] | t] w3] t3];
    cbn [traceOf snd] in Hf3, Hr3 |- *.
  2: { observe_trace. rewrite Hf2, Hr2, Hf3, Hr3.
       split; [reflexivity |]. exists (repeat ureq n2), (repeat preq n3), [].
       rewrite !app_nil_r, !repeat_length. cbn [List.length].
       repeat split; auto; try lia; try (now apply Hrep).
       apply Forall_app. split; now apply Hrep. }
  destruct (H4 w3) as (n4 & _ & Hn4 & Hf4 & Hr4).
  destruct (retryWithBackoff _ 2 500 w3) as [[[[] | t] w4] t4];
    cbn [traceOf snd] in Hf4, Hr4 |- *;
    observe_trace;
    rewrite Hf2, Hr2, Hf3, Hr3, Hf4, Hr4, ?app_nil_r;
    (split; [reflexivity |]);
    exists (repeat ureq n2), (repeat preq n3), (repeat lreq n4);
    rewrite !repeat_length;
    repeat split; auto; try lia; try (now apply Hrep);
    repeat (apply Forall_app; split); now apply Hrep.
Qed.



(** X8. A failed file read is fatal and is not retried: uploadAsset reads
    once, sends no request, sets no timer, and throws the read error wrapped
    by its catch clause (the network diagnostic when the message contains
    "Failed to fetch", "SSL" or "TLS", the prefixed message otherwise). *)
Theorem uploadAsset_read_failure_is_fatal {W}
    (transport : Request -> W -> (JsError + Response) * W)
    (fileSystem : string -> W -> (JsError + string) * W)
    token org repo path localFilePath contentType (w w1 : W) (e : JsError) :
  fileSystem localFilePath w = (inl e, w1) ->
  let run := uploadAsset transport fileSystem token org repo path localFilePath
               contentType w in
  outcomeOf run =
    Throw (ThrownError (newError
      (if includes (message e) "Failed to fetch" ||
          includes (message e) "SSL" || includes (message e) "TLS"
       then networkDiagnostic (message e)
       else "Failed to upload asset to DA: " ++ message e))) /\
  worldOf run = w1 /\
  fileReads (traceOf run) = 1%nat /\
  fetches (traceOf run) = [] /\
  invocations (traceOf run) = 0%nat /\
  delays (traceOf run) = [].
Proof.
  intros Hfile run. subst run.
  rewrite uploadAsset_run, uploadAssetTry_run, Hfile, uploadAssetCatch_run.
  repeat split.
Qed.

Lemma uploadAsset_read_failure_is_fatal_witness :
  let run :=
    uploadAsset scriptedTransport missingFile (Some "token")
      "acme" "site" "assets/img.png" "./img.png" None [] in
  outcomeOf run =
    Throw (ThrownError (newError
      "Failed to upload asset to DA: ENOENT: no such file or directory, open './img.png'")) /\
  fetches (traceOf run) = [].
Proof.
  intro run.
  pose proof (@uploadAsset_read_failure_is_fatal Script scriptedTransport
                missingFile (Some "token") "acme" "site" "assets/img.png"
                "./img.png" None [] []
                (mkError "Error"
                   "ENOENT: no such file or directory, open './img.png'")
                eq_refl)
    as (Ho & _ & _ & Hf & _).
  split; [exact Ho | exact Hf].
Defined.

Lemma startsWith_app s rest : startsWith (s ++ rest) s = true.
Proof.
  induction s as [| c s IH]; [reflexivity |].
  cbn [append startsWith]. now rewrite Ascii.eqb_refl, IH.
Qed.

Lemma includes_startsWith s sub : startsWith s sub = true -> includes s sub = true.
Proof. intro H. destruct s; cbn [includes]; now rewrite H. Qed.

Lemma includes_app_l x s sub :
  includes s sub = true -> includes (x ++ s) sub = true.
Proof.
  intro H. induction x as [| c x IH]; [exact H |].
  cbn [append includes]. rewrite IH. apply orb_true_r.
Qed.

Lemma includes_middle x s rest : includes (x ++ s ++ rest) s = true.
Proof. apply includes_app_l, includes_startsWith, startsWith_app. Qed.

(** X9. Whatever error leaves the try block, the error uploadAsset throws is
    a plain Error whose message still contains the original message. *)
Theorem uploadAsset_keeps_original_message {W}
    (transport : Request -> W -> (JsError + Response) * W)
    (fileSystem : string -> W -> (JsError + string) * W)
    token org repo path localFilePath contentType (w : W) (e : JsError) :
  outcomeOf (uploadAssetTry transport fileSystem token org repo path
               localFilePath contentType w) = Throw (ThrownError e) ->
  exists reported,
    outcomeOf (uploadAsset transport fileSystem token org repo path
                 localFilePath contentType w) = Throw (ThrownError reported) /\
    name reported = "Error" /\
    includes (message reported) (message e) = true.
Proof.
  intro H. rewrite uploadAsset_outcome, H.
  eexists. split; [reflexivity |]. split; [reflexivity |].
  unfold rethrown. cbn [message newError].
  destruct (isNetworkFailure (message e)).
  - unfold networkDiagnostic. do 11 apply includes_app_l.
    apply includes_startsWith, startsWith_app.
  - rewrite <- (append_nil_r (message e)) at 1. apply includes_middle.
Qed.

Lemma uploadAsset_keeps_original_message_witness :
  includes
    "Failed to upload asset to DA: ENOENT: no such file or directory, open './img.png'"
    "ENOENT: no such file or directory, open './img.png'" = true.
Proof.
  destruct (@uploadAsset_keeps_original_message Script scriptedTransport
              missingFile (Some "token") "acme" "site" "assets/img.png"
              "./img.png" None []
              (mkError "Error" "ENOENT: no such file or directory, open './img.png'")
              eq_refl)
    as (reported & Ho & _ & Hin).
  assert (Hr : reported = newError
            "Failed to upload asset to DA: ENOENT: no such file or directory, open './img.png'").
  { assert (Hrun : outcomeOf
              (uploadAsset scriptedTransport missingFile (Some "token")
                 "acme" "site" "assets/img.png" "./img.png" None [])
            = Throw (ThrownError (newError
                "Failed to upload asset to DA: ENOENT: no such file or directory, open './img.png'")))
      by reflexivity.
    congruence. }
  rewrite Hr in Hin. exact Hin.
Defined.

Section RetryTransientOutcome.

Context {W A : Type}.
Variable fn : M W A.
Variables maxRetries initialDelay : Z.
Hypothesis fn_quiet : Quiet fn.

Lemma retryLoop_transient_outcome (e : JsError) :
  isRetryable (message e) = true ->
  forall (retries : nat) attempt lastError w,
    Z.of_nat retries = maxRetries - attempt ->
    outcomeOf (retryLoop fn maxRetries initialDelay attempt lastError w)
    = Throw (ThrownError e) ->
    executorEvents (traceOf (retryLoop fn maxRetries initialDelay attempt lastError w))
    = schedule initialDelay attempt retries.
Proof.
  intro He.
  induction retries as [| n IH]; intros attempt lastError w Hn;
    destruct (fn w) as [[o w1] t1] eqn:Hfn;
    destruct o as [a | [v | e0]].
  1, 4: rewrite (retryLoop_success fn initialDelay lastError w
                   (attempt:=attempt) (maxRetries:=maxRetries) ltac:(lia) Hfn);
        discriminate.
  1, 3: rewrite (@retryLoop_undefined_exact W A fn maxRetries initialDelay
                   attempt lastError w w1 t1 v ltac:(lia) Hfn);
        cbn; intros [= <-]; destruct v; discriminate He.
  - rewrite (retryLoop_rethrow fn initialDelay lastError w
               (attempt:=attempt) (maxRetries:=maxRetries)
               ltac:(lia) Hfn ltac:(right; lia)).
    intros _. cbn [traceOf snd schedule].
    now rewrite executorEvents_invoke, (@quiet_trace _ _ fn _ _ _ _ fn_quiet Hfn).
  - destruct (isRetryable (message e0)) eqn:Hre.
    + rewrite (retryLoop_retry fn initialDelay lastError w
                 (attempt:=attempt) (maxRetries:=maxRetries)
                 ltac:(lia) Hfn Hre).
      specialize (IH (attempt + 1) (ThrownError e0) w1 ltac:(lia)).
      destruct (retryLoop fn maxRetries initialDelay (attempt + 1) (ThrownError e0) w1)
        as [[r w2] t2].
      cbn in IH |- *. intro Ho. specialize (IH Ho).
      rewrite executorEvents_invoke, executorEvents_app,
        (@quiet_trace _ _ fn _ _ _ _ fn_quiet Hfn).
      cbn [app]. now rewrite executorEvents_log, executorEvents_sleep, IH.
    + rewrite (retryLoop_rethrow fn initialDelay lastError w
                 (attempt:=attempt) (maxRetries:=maxRetries)
                 ltac:(lia) Hfn ltac:(now left)).
      cbn. intros [= <-]. congruence.
Qed.

End RetryTransientOutcome.

(** X10. A transient error only leaves retryWithBackoff once the retries are
    used up: for maxRetries >= 0, if the error thrown has a retryable
    message, the operation was invoked exactly maxRetries + 1 times, with
    all maxRetries timers in between. *)
Theorem retry_transient_error_means_exhausted {W A} (fn : M W A) (R d : Z) (w : W)
    (e : JsError) :
  Quiet fn -> 0 <= R ->
  outcomeOf (retryWithBackoff fn R d w) = Throw (ThrownError e) ->
  isRetryable (message e) = true ->
  invocations (traceOf (retryWithBackoff fn R d w)) = Z.to_nat (R + 1) /\
  delays (traceOf (retryWithBackoff fn R d w))
  = map (fun i => d * 2 ^ Z.of_nat i) (seq 0 (Z.to_nat R)).
Proof.
  intros Hq HR Ho He.
  pose proof (@retryLoop_transient_outcome W A fn R d Hq e He (Z.to_nat R) 0
                ThrownUndefined w ltac:(lia) Ho) as Ht.
  fold (retryWithBackoff fn R d) in Ht.
  split.
  - rewrite <- invocations_executorEvents, Ht, invocations_schedule. lia.
  - rewrite <- delays_executorEvents, Ht, delays_schedule.
    apply map_ext. intro i. now rewrite Z.add_0_l.
Qed.

Lemma retry_transient_error_means_exhausted_witness :
  Quiet (failsThenSucceeds 9 "SSL alert") /\
  outcomeOf (retryWithBackoff (failsThenSucceeds 9 "SSL alert") 2 500 0%nat)
  = Throw (ThrownError (newError "SSL alert")) /\
  invocations (traceOf (retryWithBackoff (failsThenSucceeds 9 "SSL alert") 2 500 0%nat))
  = 3%nat /\
  delays (traceOf (retryWithBackoff (failsThenSucceeds 9 "SSL alert") 2 500 0%nat))
  = [500; 1000].
Proof.
  assert (Hquiet : Quiet (failsThenSucceeds 9 "SSL alert")).
  { intro w. unfold failsThenSucceeds. destruct (w <? 9)%nat; reflexivity. }
  assert (Ho : outcomeOf (retryWithBackoff (failsThenSucceeds 9 "SSL alert") 2 500 0%nat)
               = Throw (ThrownError (newError "SSL alert"))) by reflexivity.
  split; [exact Hquiet |]. split; [exact Ho |].
  exact (@retry_transient_error_means_exhausted nat bool
           (failsThenSucceeds 9 "SSL alert") 2 500 0%nat (newError "SSL alert")
           Hquiet ltac:(lia) Ho eq_refl).
Defined.

(* ===================================================================== *)
(** ** Further properties of common/utils.js and of the source operations *)
(* ===================================================================== *)

Lemma ownProperty_setProperty_same obj key value :
  ownProperty (setProperty obj key value) key = Some value.
Proof.
  induction obj as [| [k v] obj IH]; cbn [setProperty ownProperty].
  - now rewrite String.eqb_refl.
  - destruct (String.eqb k key) eqn:E; cbn [ownProperty]; now rewrite E.
Qed.

Lemma ownProperty_setProperty_other obj key value key' :
  key' <> key ->
  ownProperty (setProperty obj key value) key' = ownProperty obj key'.
Proof.
  intro Hne. induction obj as [| [k v] obj IH]; cbn [setProperty ownProperty].
  - assert (E : String.eqb key key' = false) by (apply String.eqb_neq; congruence).
    now rewrite E.
  - destruct (String.eqb k key) eqn:E; cbn [ownProperty].
    + apply String.eqb_eq in E. subst k.
      assert (E' : String.eqb key key' = false) by (apply String.eqb_neq; congruence).
      now rewrite E'.
    + now rewrite IH.
Qed.

Lemma ownProperty_spread base extra key :
  (forall kv, In kv extra -> fst kv <> key) ->
  ownProperty (fold_left (fun h kv => setProperty h (fst kv) (snd kv)) extra base) key
  = ownProperty base key.
Proof.
  revert base. induction extra as [| kv extra IH]; intros base Hnot; [reflexivity |].
  cbn [fold_left]. rewrite IH by (intros kv' Hin; apply Hnot; now right).
  apply ownProperty_setProperty_other. intro E. apply (Hnot kv); [now left | auto].
Qed.

(** X11. daAdminRequest sends one request, to the given URL with the given
    body. The method is options.method, or GET when that is absent or empty.
    With a non-empty DA_ADMIN_API_TOKEN the Authorization header is
    "Bearer <token>", even over one the caller passed; without a token (or
    with an empty one) no Authorization header is added; the User-Agent is
    the constant unless the caller's headers replace it. *)
Theorem daAdminRequest_request {W}
    (transport : Request -> W -> (JsError + Response) * W)
    token userAgent parse stringify url options (w : W) :
  exists req,
    fetches (traceOf (daAdminRequest transport token userAgent parse stringify
                        url options w)) = [req] /\
    reqUrl req = url /\
    reqBody req = optBody options /\
    ((optMethod options = None \/ optMethod options = Some EmptyString) ->
     reqMethod req = "GET") /\
    (forall m, optMethod options = Some m -> m <> EmptyString -> reqMethod req = m) /\
    (forall t, token = Some t -> t <> EmptyString ->
       ownProperty (reqHeaders req) "Authorization" = Some ("Bearer " ++ t)) /\
    ((token = None \/ token = Some EmptyString) ->
     (forall kv, In kv (optHeaders options) -> fst kv <> "Authorization") ->
     ownProperty (reqHeaders req) "Authorization" = None) /\
    ((forall kv, In kv (optHeaders options) -> fst kv <> "User-Agent") ->
     ownProperty (reqHeaders req) "User-Agent" = Some userAgent).
Proof.
  exists (daAdminInit token userAgent url options).
  split.
  { apply daAdminRequest_fetches. }
  unfold daAdminInit. cbn [reqUrl reqBody reqMethod reqHeaders].
  split; [reflexivity |]. split; [reflexivity |].
  split; [| split; [| split; [| split]]].
  - intros [-> | ->]; reflexivity.
  - intros m -> Hm. now rewrite (truthyString_nonempty Hm).
  - intros t -> Ht. rewrite (truthyString_nonempty Ht).
    apply ownProperty_setProperty_same.
  - intros Htok Hnot.
    assert (Hbase : ownProperty
              (fold_left (fun h kv => setProperty h (fst kv) (snd kv))
                 (optHeaders options) [("User-Agent", userAgent)]) "Authorization"
              = None).
    { now rewrite ownProperty_spread by exact Hnot. }
    destruct Htok as [-> | ->]; exact Hbase.
  - intro Hnot.
    assert (Hbase : ownProperty
              (fold_left (fun h kv => setProperty h (fst kv) (snd kv))
                 (optHeaders options) [("User-Agent", userAgent)]) "User-Agent"
              = Some userAgent).
    { now rewrite ownProperty_spread by exact Hnot. }
    destruct token as [t |]; [| exact Hbase].
    destruct (truthyString t); [| exact Hbase].
    rewrite ownProperty_setProperty_other by discriminate. exact Hbase.
Qed.

Section SourceRelay.

Context {W : Type}.
Variable transport : Request -> W -> (JsError + Response) * W.
Variable token : option string.
Variable userAgent : string.
Variable parse : string -> option Json.
Variable stringify : Json -> Z -> string.

(** The body shared by getSource, createSource and deleteSource: call
    daAdminRequest, format the data; log and re-throw what it throws. *)
Lemma source_relay url options w :
  let run :=
    tryCatch
      (data <- daAdminRequest transport token userAgent parse stringify url options ;;
       ret (daAdminResponseFormat stringify data))
      (fun error => consoleError (LogCaught error) ;;; throw error) w in
  fetches (traceOf run) = [daAdminInit token userAgent url options] /\
  outcomeOf run =
    match outcomeOf (daAdminRequest transport token userAgent parse stringify
                       url options w) with
    | Return data => Return [mkContent "text" (stringify data 2)]
    | Throw t => Throw t
    end /\
  (forall e w1, transport (daAdminInit token userAgent url options) w = (inl e, w1) ->
     outcomeOf run = Throw (ThrownError e)).
Proof.
  cbv zeta. unfold tryCatch, bind, daAdminResponseFormat.
  rewrite daAdminRequest_run. cbv zeta.
  destruct (transport (daAdminInit token userAgent url options) w)
    as [[e | r] w1];
    [| destruct (outcomeOf (parseResponseBody parse r w1));
       [destruct (ok r) |]]; cbn;
    (split; [reflexivity |]); (split; [reflexivity |]);
    intros e' w1' H; congruence.
Qed.

End SourceRelay.

(** X12. getSource, createSource and deleteSource each send exactly one
    request, to the same URL formatURL gives for "source", with method GET,
    POST and DELETE; only createSource sends a body. Each returns the
    formatted data daAdminRequest returned, or re-throws what daAdminRequest
    threw, unchanged; a rejected fetch reaches the caller as the very error
    of the transport. None of them retries. *)
Theorem source_operations_one_request {W}
    (transport : Request -> W -> (JsError + Response) * W)
    token userAgent base parse stringify org repo path ext content (w : W) :
  let url := formatURL base "source" org repo path ext in
  let get := getSource transport token userAgent base parse stringify
               org repo path ext w in
  let create := createSource transport token userAgent base parse stringify
                  org repo path ext content w in
  let delete := deleteSource transport token userAgent base parse stringify
                  org repo path ext w in
  let relay (options : Options) (run : Outcome (list ToolContent) * W * list Event) :=
    outcomeOf run =
    match outcomeOf (daAdminRequest transport token userAgent parse stringify
                       url options w) with
    | Return data => Return [mkContent "text" (stringify data 2)]
    | Throw t => Throw t
    end /\
    (forall e w1, transport (daAdminInit token userAgent url options) w = (inl e, w1) ->
       outcomeOf run = Throw (ThrownError e)) in
  (exists req, fetches (traceOf get) = [req] /\ reqUrl req = url /\
               reqMethod req = "GET" /\ reqBody req = None) /\
  (exists req, fetches (traceOf create) = [req] /\ reqUrl req = url /\
               reqMethod req = "POST" /\ reqBody req <> None) /\
  (exists req, fetches (traceOf delete) = [req] /\ reqUrl req = url /\
               reqMethod req = "DELETE" /\ reqBody req = None) /\
  relay noOptions get /\
  (exists body, relay (mkOptions (Some "POST") [] (Some body)) create) /\
  relay (mkOptions (Some "DELETE") [] None) delete.
Proof.
  cbv zeta.
  pose proof (source_relay transport token userAgent parse stringify
                (formatURL base "source" org repo path ext) noOptions w)
    as (Hgf & Hgo & Hgr).
  pose proof (source_relay transport token userAgent parse stringify
                (formatURL base "source" org repo path ext)
                (mkOptions (Some "POST") []
                   (Some [mkEntry "data"
                            (mkBlob content
                               (JsString (if String.eqb ext "html" then "text/html"
                                          else "application/json")))
                            None])) w)
    as (Hcf & Hco & Hcr).
  pose proof (source_relay transport token userAgent parse stringify
                (formatURL base "source" org repo path ext)
                (mkOptions (Some "DELETE") [] None) w)
    as (Hdf & Hdo & Hdr).
  split; [eexists; split; [exact Hgf | repeat split] |].
  split; [eexists; split; [exact Hcf | repeat split; discriminate] |].
  split; [eexists; split; [exact Hdf | repeat split] |].
  split; [exact (conj Hgo Hgr) |].
  split; [eexists; exact (conj Hco Hcr) |].
  exact (conj Hdo Hdr).
Qed.

(** X13. formatURL drops one leading "/": a path that does not start with
    "/" gives the same URL with or without one in front. With an empty ext
    nothing is appended. And the extension is never doubled: a path given
    with the suffix "." ++ ext keeps exactly that one suffix. *)
Theorem formatURL_slash_and_extension (base api org repo path ext : string) :
  let prefix := base ++ "/" ++ api ++ "/" ++ org ++ "/" ++ repo ++ "/" in
  (startsWith path "/" = false ->
   formatURL base api org repo ("/" ++ path) ext
   = formatURL base api org repo path ext) /\
  (startsWith path "/" = false ->
   formatURL base api org repo path EmptyString = prefix ++ path) /\
  formatURL base api org repo ("/" ++ path) EmptyString = prefix ++ path /\
  (ext <> EmptyString ->
   formatURL base api org repo (path ++ "." ++ ext) ext
   = prefix ++ (if startsWith path "/" then slice1 path else path) ++ "." ++ ext).
Proof.
  cbv zeta. repeat split.
  - intro H. unfold formatURL. rewrite H.
    change (startsWith ("/" ++ path) "/") with true.
    change (slice1 ("/" ++ path)) with path. reflexivity.
  - intro H. unfold formatURL. rewrite H. cbn [truthyString String.eqb negb].
    now rewrite !append_assoc.
  - unfold formatURL.
    change (startsWith ("/" ++ path) "/") with true.
    change (slice1 ("/" ++ path)) with path.
    cbn [truthyString String.eqb negb]. now rewrite !append_assoc.
  - intro Hext. rewrite (formatURL_eq _ _ _ _ _ Hext), cleanLeadingSlash_app.
    rewrite endsWith_app. unfold cleanLeadingSlash. now rewrite !append_assoc.
Qed.

(* ===================================================================== *)
(** ** Further properties of the content type and the file name *)
(* ===================================================================== *)

Lemma lowerChar_dot c : Ascii.eqb (lowerChar c) "." = Ascii.eqb c ".".
Proof. destruct c as [[] [] [] [] [] [] [] []]; reflexivity. Qed.

Lemma split_toLowerCase s :
  split "." (toLowerCase s) = map toLowerCase (split "." s).
Proof.
  induction s as [| c s IH]; [reflexivity |].
  cbn [toLowerCase split]. rewrite lowerChar_dot, IH.
  destruct (Ascii.eqb c "."); [reflexivity |].
  destruct (split "." s); reflexivity.
Qed.

Lemma pop_map_toLowerCase l : pop (map toLowerCase l) = toLowerCase (pop l).
Proof.
  unfold pop. induction l as [| x l IH]; [reflexivity |].
  destruct l as [| y l]; [reflexivity |].
  cbn [map last] in IH |- *. exact IH.
Qed.

(** X14. The content type does not depend on the case of the file name:
    lower-casing the local path never changes what is resolved. *)
Theorem resolveMimeType_ignores_case contentType localFilePath :
  resolveMimeType contentType (toLowerCase localFilePath)
  = resolveMimeType contentType localFilePath.
Proof.
  unfold resolveMimeType.
  now rewrite split_toLowerCase, pop_map_toLowerCase, toLowerCase_idempotent.
Qed.

(** X15. What uploadAsset can use as content type: a non-empty contentType
    argument is taken as it is; an absent or empty one is replaced by the
    type the table gives for the lower-cased last dot-segment of the local
    path, by application/octet-stream, or, for the two segments
    "constructor" and "__proto__" only, by the member inherited from
    Object.prototype. The value is never falsy. *)
Theorem resolveMimeType_range contentType localFilePath :
  let resolved := resolveMimeType contentType localFilePath in
  let ext := toLowerCase (pop (split "." localFilePath)) in
  truthy resolved = true /\
  (forall c, contentType = Some c -> c <> EmptyString -> resolved = JsString c) /\
  ((contentType = None \/ contentType = Some EmptyString) ->
   (exists mime, In (ext, mime) mimeTypes /\ resolved = JsString mime) \/
   (ownProperty mimeTypes ext = None /\
    ((ext <> "constructor" /\ ext <> "__proto__" /\
      resolved = JsString "application/octet-stream") \/
     ((ext = "constructor" \/ ext = "__proto__") /\ resolved = JsBuiltin ext)))).
Proof.
  intros resolved ext.
  assert (Hauto : (contentType = None \/ contentType = Some EmptyString) ->
            resolved = orElse (getProperty mimeTypes ext)
                         (JsString "application/octet-stream")).
  { intros [-> | ->]; reflexivity. }
  assert (Hin : forall mime, ownProperty mimeTypes ext = Some mime ->
            In (ext, mime) mimeTypes /\ truthy (JsString mime) = true).
  { generalize ext. intros k mime. unfold mimeTypes, ownProperty.
    repeat match goal with
           | |- context [String.eqb ?a k] =>
               destruct (String.eqb_spec a k) as [<- | _];
               [intros [= <-]; split; [cbn; tauto | reflexivity] |]
           end.
    discriminate. }
  assert (Hcases :
            (contentType = None \/ contentType = Some EmptyString) ->
            truthy resolved = true /\
            ((exists mime, In (ext, mime) mimeTypes /\ resolved = JsString mime) \/
             (ownProperty mimeTypes ext = None /\
              ((ext <> "constructor" /\ ext <> "__proto__" /\
                resolved = JsString "application/octet-stream") \/
               ((ext = "constructor" \/ ext = "__proto__") /\
                resolved = JsBuiltin ext))))).
  { intro Hc. rewrite (Hauto Hc). unfold getProperty, orElse.
    destruct (ownProperty mimeTypes ext) as [mime |] eqn:Hown.
    - destruct (Hin mime eq_refl) as [Hmem Ht]. rewrite Ht.
      split; [exact Ht |]. left. exists mime. now split.
    - destruct (existsb (String.eqb ext) objectPrototypeMembers) eqn:Hmember.
      + cbn [truthy]. split; [reflexivity |]. right. split; [reflexivity |].
        right. split; [| reflexivity].
        now apply inherited_lowercase_member.
      + cbn [truthy]. split; [reflexivity |]. right. split; [reflexivity |].
        left. repeat split; intro E; rewrite E in Hmember; discriminate. }
  split; [| split].
  - destruct contentType as [c |]; [| now apply Hcases; left].
    destruct (String.eqb_spec c EmptyString) as [-> | Hne];
      [now apply Hcases; right |].
    subst resolved. rewrite resolveMimeType_explicit by exact Hne.
    cbn [truthy]. now apply negb_true_iff, String.eqb_neq.
  - intros c -> Hne. subst resolved. now apply resolveMimeType_explicit.
  - intro Hc. now apply Hcases.
Qed.

Lemma split_nonempty sep s : split sep s <> [].
Proof.
  destruct s as [| c s]; cbn [split]; [discriminate |].
  destruct (Ascii.eqb c sep); [discriminate |].
  destruct (split sep s); discriminate.
Qed.

Lemma split_without_separator sep s :
  occurs sep s = false -> split sep s = [s].
Proof.
  induction s as [| c s IH]; [reflexivity |].
  cbn [occurs split]. intro H. apply orb_false_iff in H. destruct H as [Hc Hs].
  rewrite Ascii.eqb_sym, Hc, (IH Hs). reflexivity.
Qed.

Lemma split_single sep s :
  forall h, split sep s = [h] -> s = h /\ occurs sep h = false.
Proof.
  induction s as [| c s IH]; intros h H; cbn [split] in H.
  - injection H as <-. split; reflexivity.
  - destruct (Ascii.eqb c sep) eqn:Hc.
    + injection H as _ H. now apply split_nonempty in H.
    + destruct (split sep s) as [| h' t] eqn:Hs; [now apply split_nonempty in Hs |].
      injection H as <- ->. destruct (IH h' eq_refl) as [-> Hno].
      split; [reflexivity |]. cbn [occurs]. now rewrite Ascii.eqb_sym, Hc, Hno.
Qed.

(** The last segment: a suffix without separator, preceded by nothing or by
    something that ends with the separator. *)
Lemma pop_split_spec sep s :
  exists pre,
    s = pre ++ pop (split sep s) /\
    occurs sep (pop (split sep s)) = false /\
    (pre = EmptyString \/ endsWith pre (String sep EmptyString) = true).
Proof.
  unfold pop. induction s as [| c s IH].
  - exists EmptyString. repeat split. now left.
  - destruct IH as (pre & Hs & Hno & Hpre). cbn [split].
    destruct (Ascii.eqb c sep) eqn:Hc.
    + apply Ascii.eqb_eq in Hc. subst c.
      destruct (split sep s) as [| h t] eqn:Hsplit;
        [now apply split_nonempty in Hsplit |].
      exists (String sep pre).
      change (last (EmptyString :: h :: t) EmptyString)
        with (last (h :: t) EmptyString).
      cbn [append].
      split; [now rewrite <- Hs |]. split; [exact Hno |]. right.
      destruct Hpre as [-> | Hpre]; [apply endsWith_self | now apply endsWith_cons].
    + destruct (split sep s) as [| h t] eqn:Hsplit;
        [now apply split_nonempty in Hsplit |].
      destruct t as [| y t].
      * destruct (split_single _ _ Hsplit) as [-> Hh].
        exists EmptyString. cbn [last append occurs].
        split; [reflexivity |]. split; [| now left].
        now rewrite Ascii.eqb_sym, Hc, Hh.
      * exists (String c pre).
        change (last (String c h :: y :: t) EmptyString)
          with (last (y :: t) EmptyString).
        change (last (h :: y :: t) EmptyString)
          with (last (y :: t) EmptyString) in Hs, Hno.
        cbn [append].
        split; [now rewrite <- Hs |]. split; [exact Hno |]. right.
        destruct Hpre as [-> | Hpre]; [| now apply endsWith_cons].
        cbn [append] in Hs. rewrite <- Hs in Hno.
        rewrite (split_without_separator _ _ Hno) in Hsplit. discriminate.
Qed.

(** X16. The file name uploadAsset attaches to the uploaded blob is the last
    "/"-segment of the remote path: it contains no "/", the path ends with
    it, what precedes it is empty or ends with "/", and a path without "/"
    is its own file name. The upload is one multipart field named "data". *)
Theorem upload_filename_is_last_segment {W}
    (transport : Request -> W -> (JsError + Response) * W)
    token org repo path bytes mimeType (w : W) :
  exists filename directory,
    fetches (traceOf (uploadOperation transport token (uploadUrlOf org repo path)
                        path bytes mimeType w))
    = [mkRequest (uploadUrlOf org repo path) "POST"
         [("Authorization",
           "Bearer " ++ match token with Some t => t | None => "undefined" end)]
         (Some [mkEntry "data" (mkBlob bytes mimeType) (Some filename)])] /\
    path = directory ++ filename /\
    occurs "/" filename = false /\
    endsWith path filename = true /\
    (directory = EmptyString \/ endsWith directory "/" = true) /\
    (occurs "/" path = false -> filename = path).
Proof.
  destruct (pop_split_spec "/" path) as (directory & Hpath & Hno & Hdir).
  exists (pop (split "/" path)), directory.
  split; [apply uploadOperation_one_request |].
  split; [exact Hpath |]. split; [exact Hno |].
  split; [rewrite Hpath at 1; apply endsWith_app |].
  split; [exact Hdir |].
  intro H. now rewrite (split_without_separator _ _ H).
Qed.

(* ===================================================================== *)
(** ** Time spent waiting *)
(* ===================================================================== *)

Lemma sum_app (a b : list Z) :
  fold_right Z.add 0 (a ++ b) = fold_right Z.add 0 a + fold_right Z.add 0 b.
Proof. induction a as [| x a IH]; cbn; [reflexivity | rewrite IH; lia]. Qed.

Lemma retryWithBackoff_wait_bound {W A} (fn : M W A) (R d : Z) (w : W) :
  Quiet fn -> 0 <= R -> 0 <= d ->
  0 <= fold_right Z.add 0 (delays (traceOf (retryWithBackoff fn R d w)))
    <= d * (2 ^ R - 1).
Proof.
  intros Hq HR Hd.
  destruct (@retryWithBackoff_schedule W A fn R d w Hq HR) as (k & Hk & Ht).
  rewrite <- delays_executorEvents, Ht, totalDelay_schedule by lia.
  rewrite Z.pow_0_r, Z.mul_1_r.
  assert (H1 : 0 < 2 ^ Z.of_nat k) by (apply Z.pow_pos_nonneg; lia).
  assert (H2 : 2 ^ Z.of_nat k <= 2 ^ R) by (apply Z.pow_le_mono_r; lia).
  split; [apply Z.mul_nonneg_nonneg; lia |].
  apply Z.mul_le_mono_nonneg_l; lia.
Qed.

(** X17. One call of uploadAsset never waits more than 11800 ms in timers
    (7000 of backoff for the upload, 1500 for each trigger, and the settle
    delays of 1000 and 800 ms); a call that returns a result has waited at
    least the two settle delays, 1800 ms. *)
Theorem uploadAsset_wait_bound {W}
    (transport : Request -> W -> (JsError + Response) * W)
    (fileSystem : string -> W -> (JsError + string) * W)
    token org repo path localFilePath contentType (w : W) :
  let run := uploadAsset transport fileSystem token org repo path localFilePath
               contentType w in
  0 <= totalDelay (traceOf run) <= 11800 /\
  (forall result, outcomeOf run = Return result -> 1800 <= totalDelay (traceOf run)).
Proof.
  intro run. unfold totalDelay.
  destruct (uploadAsset_observations transport fileSystem token org repo path
              localFilePath contentType w) as (_ & _ & _ & Hd).
  fold run in Hd. rewrite Hd.
  assert (Hout : forall result, outcomeOf run = Return result ->
            outcomeOf (uploadAssetTry transport fileSystem token org repo path
                         localFilePath contentType w) = Return result).
  { intros result H. subst run. rewrite uploadAsset_outcome in H.
    destruct (outcomeOf (uploadAssetTry transport fileSystem token org repo path
                           localFilePath contentType w)) as [res | [| e]];
      [exact H | discriminate | discriminate]. }
  assert (Hgoal :
    0 <= fold_right Z.add 0
           (delays (traceOf (uploadAssetTry transport fileSystem token org repo
                               path localFilePath contentType w))) <= 11800 /\
    (forall result,
       outcomeOf (uploadAssetTry transport fileSystem token org repo path
                    localFilePath contentType w) = Return result ->
       1800 <= fold_right Z.add 0
                 (delays (traceOf (uploadAssetTry transport fileSystem token org
                                     repo path localFilePath contentType w))))).
  2: { destruct Hgoal as [Hb Hl]. split; [exact Hb |].
       intros result H. exact (Hl result (Hout result H)). }
  clear Hd Hout run.
  rewrite uploadAssetTry_run.
  destruct (fileSystem localFilePath w) as [[e | bytes] w1].
  { cbn. split; [lia | discriminate]. }
  cbv zeta.
  pose proof (fun w' => @retryWithBackoff_wait_bound W unit
                (uploadOperation transport token (uploadUrlOf org repo path) path
                   bytes (resolveMimeType contentType localFilePath))
                3 1000 w' (uploadOperation_quiet _ _ _ _ _ _ _)
                ltac:(lia) ltac:(lia)) as B2.
  assert (Qp : Quiet (previewOperation transport token (previewUrlOf org repo path)))
    by (intro w'; apply previewOperation_one_request).
  assert (Ql : Quiet (publishOperation transport token (publishUrlOf org repo path)))
    by (intro w'; apply publishOperation_one_request).
  pose proof (fun w' => @retryWithBackoff_wait_bound W unit _ 2 500 w' Qp
                ltac:(lia) ltac:(lia)) as B3.
  pose proof (fun w' => @retryWithBackoff_wait_bound W unit _ 2 500 w' Ql
                ltac:(lia) ltac:(lia)) as B4.
  change (1000 * (2 ^ 3 - 1)) with 7000 in B2.
  change (500 * (2 ^ 2 - 1)) with 1500 in B3, B4.
  specialize (B2 w1).
  destruct (retryWithBackoff _ 3 1000 w1) as [[[[] | t] w2] t2];
    cbn [traceOf snd] in B2 |- *.
  2: { observe_trace. split; [lia | discriminate]. }
  specialize (B3 w2).
  destruct (retryWithBackoff _ 2 500 w2) as [[[[] | t] w3] t3];
    cbn [traceOf snd] in B3 |- *.
  2: { observe_trace. rewrite sum_app. split; [lia | discriminate]. }
  specialize (B4 w3).
  destruct (retryWithBackoff _ 2 500 w3) as [[[[] | t] w4] t4];
    cbn [traceOf snd] in B4 |- *;
    observe_trace; rewrite !sum_app; cbn [fold_right];
    rewrite ?sum_app; cbn [fold_right delays];
    (split; [lia | first [discriminate | intros; lia]]).
Qed.
